(** * The [validate] package of goutils: a shallow embedding and its properties

    The development follows [validate/validator.go], [validate/result.go]
    and the rule file of the package (the checkers [Required], [Optional],
    [MinDate], [MaxDate] and their helpers).

    - Go values reached through [reflect] are the inductive [Value].
    - A [panic] is the [Panic] outcome of [Res]; a function that may
      panic or that reads the package-level [tagCache] runs in the
      state-and-panic monad [M].
    - Go maps ([rules], [tagAliases], [tagCache]) are stdpp [gmap]s. *)

From Stdlib Require Import ZArith String Ascii List Bool Lia.
From stdpp Require Import base option list gmap strings.

Import ListNotations.
Set Warnings "-register-all".
Open Scope string_scope.
Open Scope list_scope.
Open Scope Z_scope.

(** ** Values as [reflect] sees them *)

Inductive intKind := KInt | KInt8 | KInt16 | KInt32 | KInt64.
Inductive uintKind := KUint | KUint8 | KUint16 | KUint32 | KUint64 | KUintptr.
Inductive floatKind := KFloat32 | KFloat64.
Inductive otherKind := KComplex64 | KComplex128 | KChan | KFunc | KUnsafePointer.

(** [reflect.Kind]. *)
Inductive Kind :=
| Invalid
| Bool
| IntK (k : intKind)
| UintK (k : uintKind)
| FloatK (k : floatKind)
| OtherK (k : otherKind)
| Array
| Interface
| Map
| Ptr
| Slice
| String_
| Struct.

(** A struct tag is a list of [key:"value"] pairs. *)
Definition StructTag := list (string * string).

(** A Go value.  [VIface] is a slot of interface type (a struct field, an
    element or a pointee whose static type is an interface): its
    [reflect.Value] has kind [Interface], and [.Interface()] yields the
    value it holds.  [VInvalid] is the nil [interface{}], whose
    [reflect.ValueOf] is the zero [reflect.Value].  A float is its IEEE 754
    bit pattern (32 bits for [KFloat32], 64 for [KFloat64]).  A nil slice
    or map is the empty list: the package only takes [Len], [Index],
    [MapKeys] and [MapIndex].  A map lists its entries in the order
    [MapKeys] returns them.  [VTime] is a [time.Time], as nanoseconds since
    the Unix epoch; it is a struct with unexported fields only. *)
Inductive Value :=
| VInvalid
| VBool (b : bool)
| VInt (k : intKind) (n : Z)
| VUint (k : uintKind) (n : Z)
| VFloat (k : floatKind) (bits : Z)
| VString (s : string)
| VPtr (p : option Value)
| VIface (i : option Value)
| VSlice (l : list Value)
| VArray (l : list Value)
| VMap (m : list (Value * Value))
| VStruct (fs : list (string * (StructTag * Value)))
| VTime (t : Z)
| VOther (k : otherKind) (isnil : bool).

(** [reflect.Value.Kind]. *)
Definition kindOf (v : Value) : Kind :=
  match v with
  | VInvalid => Invalid
  | VBool _ => Bool
  | VInt k _ => IntK k
  | VUint k _ => UintK k
  | VFloat k _ => FloatK k
  | VString _ => String_
  | VPtr _ => Ptr
  | VIface _ => Interface
  | VSlice _ => Slice
  | VArray _ => Array
  | VMap _ => Map
  | VStruct _ => Struct
  | VTime _ => Struct
  | VOther k _ => OtherK k
  end.

(** [reflect.Value.Interface]: the value as an [interface{}]. *)
Definition toInterface (v : Value) : Value :=
  match v with
  | VIface (Some x) => x
  | VIface None => VInvalid
  | _ => v
  end.

(** [reflect.Value.Float() != 0] on the bit pattern: every pattern but the
    two zeros (all bits clear below the sign bit) differs from 0, a NaN
    included. *)
Definition floatNonZero (k : floatKind) (bits : Z) : bool :=
  match k with
  | KFloat32 => negb (Z.land bits 2147483647 =? 0)
  | KFloat64 => negb (Z.land bits 9223372036854775807 =? 0)
  end.

(** ** Outcomes, state and the monad *)

Inductive Res (A : Type) :=
| Ok (a : A)
| Panic (msg : string).
Arguments Ok {A} a.
Arguments Panic {A} msg.

Record FieldError := mkFieldError { Field_ : string; Description : string }.
Definition FieldErrors := list FieldError.

(** A rule.  [Checker] may panic.  The Go [ErrorFunc] receives the [Tag] by
    value; the formatters read its [Name] and [Param], which is what the
    embedded formatter is given ([None] is the nil [ErrorFunc]). *)
Record ValidationRule := mkRule {
  RuleTag : string;
  Checker : Value -> string -> Res bool;
  ErrorFunc : option (string -> Value -> string -> string -> string)
}.

Record Tag := mkTag { Name : string; Rule : ValidationRule; Param : string }.

Record Validator := mkValidator {
  tagName : string;
  rules : gmap string ValidationRule;
  fullErrorPath : bool;
  tagAliases : gmap string (list Tag)
}.

(** One checker invocation: the rule's tag, the value and the parameter. *)
Definition Call := (string * (Value * string))%type.

(** The state the package shares between calls: the package variable
    [tagCache], and (ghost) the log of the checker invocations made so far,
    oldest first. *)
Record State := mkState {
  tagCache : gmap string (list Tag);
  calls : list Call
}.

Definition M (A : Type) := State -> Res A * State.

Definition ret {A} (a : A) : M A := fun s => (Ok a, s).
Definition panic {A} (msg : string) : M A := fun s => (Panic msg, s).
Definition bind {A B} (m : M A) (f : A -> M B) : M B :=
  fun s => match m s with
           | (Ok a, s') => f a s'
           | (Panic msg, s') => (Panic msg, s')
           end.

Notation "'let*' x ':=' c1 'in' c2" := (bind c1 (fun x => c2))
  (at level 10, x name, c1 at level 100, c2 at level 200).

(** Invoke a checker, logging the invocation. *)
Definition callChecker (t : Tag) (v : Value) : M bool :=
  fun s =>
    let s' := mkState (tagCache s) (calls s ++ [(RuleTag (Rule t), (v, Param t))]) in
    match Checker (Rule t) v (Param t) with
    | Ok b => (Ok b, s')
    | Panic msg => (Panic msg, s')
    end.

(** ** The [required] and [optional] checkers *)

(** [Required]. *)
Definition Required (v : Value) (_ : string) : Res bool :=
  match v with
  | VString s => Ok (negb (String.length s =? 0)%nat)
  | VPtr p => Ok (match p with None => false | Some _ => true end)
  | VIface i => Ok (match i with None => false | Some _ => true end)
  | VSlice l | VArray l => Ok (negb (List.length l =? 0)%nat)
  | VMap m => Ok (negb (List.length m =? 0)%nat)
  | VInt _ n => Ok (negb (n =? 0))
  | VUint _ n => Ok (negb (n =? 0))
  | VFloat k bits => Ok (floatNonZero k bits)
  | VBool b => Ok b
  | VInvalid => Ok false
  | VStruct _ | VTime _ => Ok true
  | VOther _ _ => Ok false
  end.

Definition sprintf_is_required (field : string) : string := field +:+ " is required".

(** [RequiredErr]. *)
Definition RequiredErr (field : string) (_ : Value) (_ _ : string) : string :=
  sprintf_is_required field.

(** [Optional]. *)
Definition Optional (v : Value) (_ : string) : Res bool := Required v "".

(** ** Errors as Go [error] values

    A Go [error] is [option error], [None] being nil.  [ErrWrap] is an
    error that wraps another one ([Unwrap]), which [errors.As] follows. *)

Inductive error :=
| ErrFieldError (fe : FieldError)
| ErrFieldErrors (fes : FieldErrors)
| ErrOther (msg : string)
| ErrWrap (msg : string) (inner : error).

(** [errors.As(err, &fieldError)] on a non-nil [err]. *)
Fixpoint As_FieldError (e : error) : option FieldError :=
  match e with
  | ErrFieldError fe => Some fe
  | ErrWrap _ inner => As_FieldError inner
  | _ => None
  end.

(** [errors.As(err, &fieldErrors)] on a non-nil [err]. *)
Fixpoint As_FieldErrors (e : error) : option FieldErrors :=
  match e with
  | ErrFieldErrors fes => Some fes
  | ErrWrap _ inner => As_FieldErrors inner
  | _ => None
  end.

(** The zero [FieldError], what [var fieldError FieldError] holds. *)
Definition zeroFieldError : FieldError := mkFieldError "" "".

(** ** Strings: the helpers of [strings] and [regexp] the parser calls *)

Definition backslash : ascii := ascii_of_nat 92.
Definition comma : ascii := ascii_of_nat 44.
Definition space : ascii := ascii_of_nat 32.
Definition equals : ascii := ascii_of_nat 61.
Definition dquote : ascii := ascii_of_nat 34.

(** The tail [(?:\\)*,] of [sepPattern] at the head of [s]: pairs of
    backslashes, then a comma; the number of bytes matched. *)
Fixpoint evenRunComma (s : string) : option nat :=
  match s with
  | String c r =>
      if Ascii.eqb c comma then Some 1%nat
      else if Ascii.eqb c backslash then
        match r with
        | String c' r' =>
            if Ascii.eqb c' backslash
            then match evenRunComma r' with Some n => Some (S (S n)) | None => None end
            else None
        | EmptyString => None
        end
      else None
  | EmptyString => None
  end.

(** A match of [sepPattern] that begins at the head of [s], [atStart]
    telling whether that is the beginning of the text: the alternative [^]
    is tried first, then [[^\\]], one byte that is not a backslash. *)
Definition sepPattern_matchAt (atStart : bool) (s : string) : option nat :=
  match (if atStart then evenRunComma s else None) with
  | Some n => Some n
  | None =>
      match s with
      | String c r =>
          if Ascii.eqb c backslash then None
          else match evenRunComma r with Some n => Some (S n) | None => None end
      | EmptyString => None
      end
  end.

(** The leftmost match at or after position [pos], [s] being the text from
    [pos] on: its start and end. *)
Fixpoint sepPattern_find (pos : nat) (s : string) : option (nat * nat) :=
  match sepPattern_matchAt (pos =? 0)%nat s with
  | Some n => Some (pos, (pos + n)%nat)
  | None =>
      match s with
      | String _ r => sepPattern_find (S pos) r
      | EmptyString => None
      end
  end.

Fixpoint dropString (n : nat) (s : string) : string :=
  match n, s with
  | S k, String _ r => dropString k r
  | _, _ => s
  end.

(** [sepPattern.FindAllStringIndex(str, -1)]: the successive matches, none
    overlapping the one before.  Every match is at least one byte long, so
    [fuel] above the length of the text is enough. *)
Fixpoint sepPattern_findAll (fuel : nat) (pos : nat) (s : string) : list (nat * nat) :=
  match fuel with
  | O => []
  | S fuel' =>
      match sepPattern_find pos s with
      | Some (b, e) => (b, e) :: sepPattern_findAll fuel' e (dropString (e - pos) s)
      | None => []
      end
  end.

Definition sepPattern_FindAllStringIndex (str : string) : list (nat * nat) :=
  sepPattern_findAll (S (String.length str)) 0 str.

(** [str[lo:hi]]. *)
Definition slice (str : string) (lo hi : nat) : string :=
  String.substring lo (hi - lo) str.

Fixpoint splitLoop (str : string) (indexes : list (nat * nat)) (last : nat) : list string :=
  match indexes with
  | is_ :: rest => slice str last (snd is_ - 1) :: splitLoop str rest (snd is_)
  | [] => [slice str last (String.length str)]
  end.

(** [splitUnescapedComma]. *)
Definition splitUnescapedComma (str : string) : list string :=
  splitLoop str (sepPattern_FindAllStringIndex str) 0.

(** [strings.ReplaceAll(i, `\\,`, ",")]. *)
Fixpoint unescapeComma (s : string) : string :=
  match s with
  | String c r =>
      match r with
      | String c' r' =>
          if Ascii.eqb c backslash && Ascii.eqb c' comma
          then String comma (unescapeComma r')
          else String c (unescapeComma r)
      | EmptyString => s
      end
  | EmptyString => EmptyString
  end.

(** [strings.SplitN(i, "=", 2)]: [v[0]], and [v[1]] when there is one. *)
Fixpoint splitEq (s : string) : string * option string :=
  match s with
  | String c r =>
      if Ascii.eqb c equals then (EmptyString, Some r)
      else let '(a, b) := splitEq r in (String c a, b)
  | EmptyString => (EmptyString, None)
  end.

Fixpoint trimLeft (s : string) : string :=
  match s with
  | String c r => if Ascii.eqb c space then trimLeft r else s
  | EmptyString => EmptyString
  end.

Fixpoint trimRight (s : string) : string :=
  match s with
  | String c r =>
      match trimRight r with
      | EmptyString => if Ascii.eqb c space then EmptyString else String c EmptyString
      | r' => String c r'
      end
  | EmptyString => EmptyString
  end.

(** [strings.Trim(s, " ")]. *)
Definition Trim (s : string) : string := trimRight (trimLeft s).

(** ** Parsing a declaration string *)

Section Validate.

(** Go's [%q] verb ([strconv.Quote]) and [%+v] verb on a value: the
    formatting of the [fmt] package. *)
Variable quote : string -> string.
Variable fmtValue : Value -> string.

(** [fmt.Sprintf("unknown %s tag %q", mv.tagName, tg.Name)]. *)
Definition unknownTag (mv : Validator) (name : string) : string :=
  "unknown " +:+ tagName mv +:+ " tag " +:+ quote name.

(** The name and the parameter of one piece of the declaration. *)
Definition specName (i : string) : string := Trim (fst (splitEq (unescapeComma i))).

Definition specParam (i : string) : string :=
  match snd (splitEq (unescapeComma i)) with
  | Some p => Trim p
  | None => ""
  end.

(** The loop of [mustParseTags] over the pieces. *)
Fixpoint parseLoop (mv : Validator) (tl : list string) (tags : list Tag) : Res (list Tag) :=
  match tl with
  | [] => Ok tags
  | i :: rest =>
      let name := specName i in
      if String.eqb name "" then Panic (unknownTag mv name)
      else
        match rules mv !! name with
        | Some rule => parseLoop mv rest (tags ++ [mkTag name rule (specParam i)])
        | None =>
            match tagAliases mv !! name with
            | Some val => parseLoop mv rest (tags ++ val)
            | None => Panic (unknownTag mv name)
            end
        end
  end.

(** [mustParseTags]. *)
Definition mustParseTags (mv : Validator) (t : string) : M (list Tag) :=
  fun s =>
    match tagCache s !! t with
    | Some val => (Ok val, s)
    | None =>
        match parseLoop mv (splitUnescapedComma t) [] with
        | Ok tags => (Ok tags, mkState (<[t := tags]> (tagCache s)) (calls s))
        | Panic msg => (Panic msg, s)
        end
    end.

(** [AddRule]. *)
Definition AddRule (mv : Validator) (rule : ValidationRule) : Validator :=
  mkValidator (tagName mv) (<[RuleTag rule := rule]> (rules mv)) (fullErrorPath mv) (tagAliases mv).

(** [AddAlias]. *)
Definition AddAlias (mv : Validator) (alias tags : string) : M Validator :=
  let* val := mustParseTags mv tags in
  ret (mkValidator (tagName mv) (rules mv) (fullErrorPath mv) (<[alias := val]> (tagAliases mv))).

(** [NewValidator] before its options are applied. *)
Definition NewValidator : Validator := mkValidator "validate" ∅ false ∅.

(** [WithFullErrorPath]. *)
Definition WithFullErrorPath (v : Validator) : Validator :=
  mkValidator (tagName v) (rules v) true (tagAliases v).

(** ** Evaluating a rule chain *)

(** The loop of [singleField] over the tags. *)
Fixpoint evalTags (tags : list Tag) (v : Value) (field : string) : M (option error) :=
  match tags with
  | [] => ret None
  | t :: rest =>
      let* ok := callChecker t v in
      if ok then evalTags rest v field
      else
        match ErrorFunc (Rule t) with
        | None => ret None
        | Some errorFunc =>
            ret (Some (ErrFieldError (mkFieldError field (errorFunc field v (Name t) (Param t)))))
        end
  end.

(** [singleField]. *)
Definition singleField (mv : Validator) (v : Value) (field tag : string) : M (option error) :=
  let* tags := mustParseTags mv tag in
  evalTags tags v field.

(** [Validator.Field].  The recursive call is on [v.Elem().Interface()];
    an interface slot stands for the value it holds. *)
Fixpoint Field (mv : Validator) (val : Value) (field tags : string) : M (option error) :=
  if String.eqb tags "-" then ret None
  else
    match val with
    | VPtr (Some e) => Field mv e field tags
    | VIface (Some x) => Field mv x field tags
    | VIface None | VInvalid => singleField mv VInvalid field tags
    | _ => singleField mv val field tags
    end.

(** [Fields]. *)
Fixpoint FieldsLoop (errs : list (option error)) (result : FieldErrors) : FieldErrors :=
  match errs with
  | [] => result
  | None :: rest => FieldsLoop rest result
  | Some err :: rest =>
      let fieldError := match As_FieldError err with Some fe => fe | None => zeroFieldError end in
      FieldsLoop rest (result ++ [fieldError])
  end.

Definition Fields (errs : list (option error)) : option error :=
  let result := FieldsLoop errs [] in
  if (List.length result =? 0)%nat then None else Some (ErrFieldErrors result).

(** ** The value traverser *)

(** [Kind.String]. *)
Definition kindString (k : Kind) : string :=
  match k with
  | Invalid => "invalid"
  | Bool => "bool"
  | IntK KInt => "int" | IntK KInt8 => "int8" | IntK KInt16 => "int16"
  | IntK KInt32 => "int32" | IntK KInt64 => "int64"
  | UintK KUint => "uint" | UintK KUint8 => "uint8" | UintK KUint16 => "uint16"
  | UintK KUint32 => "uint32" | UintK KUint64 => "uint64" | UintK KUintptr => "uintptr"
  | FloatK KFloat32 => "float32" | FloatK KFloat64 => "float64"
  | OtherK KComplex64 => "complex64" | OtherK KComplex128 => "complex128"
  | OtherK KChan => "chan" | OtherK KFunc => "func"
  | OtherK KUnsafePointer => "unsafe.Pointer"
  | Array => "array"
  | Interface => "interface"
  | Map => "map"
  | Ptr => "ptr"
  | Slice => "slice"
  | String_ => "string"
  | Struct => "struct"
  end.

(** The panic of [reflect.Value.NumField] on a value that is no struct. *)
Definition numFieldPanic (k : Kind) : string :=
  match k with
  | Invalid => "reflect: call of reflect.Value.NumField on zero Value"
  | _ => "reflect: call of reflect.Value.NumField on " +:+ kindString k +:+ " Value"
  end.

(** [unicode.IsUpper(rune(b))] for a byte [b]: the upper-case letters of
    Latin-1. *)
Definition isUpperByte (c : ascii) : bool :=
  let n := Z.of_N (N_of_ascii c) in
  ((65 <=? n) && (n <=? 90)) || ((192 <=? n) && (n <=? 222) && negb (n =? 215)).

(** [StructTag.Get]. *)
Fixpoint Get (tag : StructTag) (key : string) : string :=
  match tag with
  | [] => ""
  | (k, v) :: rest => if String.eqb k key then v else Get rest key
  end.

(** [rune(i)]: the conversion of an [int] to [int32]. *)
Definition runeOfInt (i : Z) : Z := (i + 2147483648) mod 4294967296 - 2147483648.

Definition byteOf (n : Z) : ascii := ascii_of_N (Z.to_N n).

(** [string(r)] for a rune [r]: its UTF-8 encoding, that of U+FFFD when
    [r] is no valid code point. *)
Definition stringOfRune (r : Z) : string :=
  if (r <? 0) || (1114111 <? r) || ((55296 <=? r) && (r <=? 57343))
  then String (byteOf 239) (String (byteOf 191) (String (byteOf 189) EmptyString))
  else if r <? 128 then String (byteOf r) EmptyString
  else if r <? 2048 then
    String (byteOf (Z.lor 192 (Z.shiftr r 6)))
      (String (byteOf (Z.lor 128 (Z.land r 63))) EmptyString)
  else if r <? 65536 then
    String (byteOf (Z.lor 224 (Z.shiftr r 12)))
      (String (byteOf (Z.lor 128 (Z.land (Z.shiftr r 6) 63)))
         (String (byteOf (Z.lor 128 (Z.land r 63))) EmptyString))
  else
    String (byteOf (Z.lor 240 (Z.shiftr r 18)))
      (String (byteOf (Z.lor 128 (Z.land (Z.shiftr r 12) 63)))
         (String (byteOf (Z.lor 128 (Z.land (Z.shiftr r 6) 63)))
            (String (byteOf (Z.lor 128 (Z.land r 63))) EmptyString))).

(** The field name [validateCollection] hands down for element [i]:
    [field+"["+string(rune(i))+"]"]. *)
Definition elemField (field : string) (i : nat) : string :=
  field +:+ "[" +:+ stringOfRune (runeOfInt (Z.of_nat i)) +:+ "]".

(** [fmt.Sprintf("%s[%+v](key)", field, key.Interface())] and its
    [(value)] twin. *)
Definition keyField (field : string) (key : Value) : string :=
  field +:+ "[" +:+ fmtValue (toInterface key) +:+ "](key)".
Definition valueField (field : string) (key : Value) : string :=
  field +:+ "[" +:+ fmtValue (toInterface key) +:+ "](value)".

(** The loop [for f.Kind() == reflect.Ptr && !f.IsNil() { f = f.Elem() }]. *)
Fixpoint derefPtr (f : Value) : Value :=
  match f with
  | VPtr (Some e) => derefPtr e
  | _ => f
  end.

(** The end of [validateStruct]: the errors of a struct nested under
    [fieldName] get that name and a dot in front when [fullErrorPath] is
    set. *)
Definition prefixField (fieldName : string) (err : FieldError) : FieldError :=
  mkFieldError (fieldName +:+ "." +:+ Field_ err) (Description err).

Definition finishStruct (mv : Validator) (fieldName : string) (errs : FieldErrors) : FieldErrors :=
  if (List.length errs =? 0)%nat then []
  else if negb (fullErrorPath mv) || String.eqb fieldName "" then errs
  else map (prefixField fieldName) errs.

(** The bodies of the mutually recursive methods, the recursive calls
    being the variables [validateStruct_] and [deep_]. *)
Section Bodies.

Variable mv : Validator.
Variable validateStruct_ : Value -> string -> M FieldErrors.
Variable deep_ : Value -> string -> M FieldErrors.

(** One turn of the loop of [validateStructFields], after the test on the
    field's first letter. *)
Definition validateStructField (field : string) (stag : StructTag) (fv : Value)
    (result : FieldErrors) : M FieldErrors :=
  let f := derefPtr fv in
  let tag := Get stag (tagName mv) in
  if String.eqb tag "-" then ret result
  else
    let* result :=
      (if negb (String.eqb tag "") then
         let* err := Field mv (toInterface f) field tag in
         match err with
         | Some e =>
             ret (result ++ [match As_FieldError e with Some fe => fe | None => zeroFieldError end])
         | None => ret result
         end
       else ret result) in
    let* errs := deep_ f field in
    ret (result ++ errs).

(** [validateStructFields]. *)
Fixpoint validateStructFieldsLoop (fs : list (string * (StructTag * Value)))
    (result : FieldErrors) : M FieldErrors :=
  match fs with
  | [] => ret result
  | (field, (stag, fv)) :: rest =>
      match field with
      | EmptyString => panic "runtime error: index out of range [0] with length 0"
      | String c _ =>
          if negb (isUpperByte c) then validateStructFieldsLoop rest result
          else
            let* result := validateStructField field stag fv result in
            validateStructFieldsLoop rest result
      end
  end.

(** [validateCollection], from index [i] on. *)
Fixpoint validateCollectionLoop (l : list Value) (i : nat) (field : string)
    (result : FieldErrors) : M FieldErrors :=
  match l with
  | [] => ret result
  | x :: rest =>
      let* errs := deep_ x (elemField field i) in
      validateCollectionLoop rest (S i) field (result ++ errs)
  end.

(** [validateMap]. *)
Fixpoint validateMapLoop (m : list (Value * Value)) (field : string)
    (result : FieldErrors) : M FieldErrors :=
  match m with
  | [] => ret result
  | (key, value) :: rest =>
      let* errs := deep_ key (keyField field key) in
      let* errs' := deep_ value (valueField field key) in
      validateMapLoop rest field ((result ++ errs) ++ errs')
  end.

(** [validateStruct].  Its argument is an [interface{}]: an interface slot
    stands for the value it holds ([value.Interface()]), and the nil
    interface, like every value that is no struct and no pointer, ends in
    the panic of [NumField].  A [time.Time] has unexported fields only, so
    the loop over its fields returns nil. *)
Definition validateStructBody (value : Value) (fieldName : string) : M FieldErrors :=
  match value with
  | VIface (Some x) => validateStruct_ x fieldName
  | VPtr None => ret []
  | VPtr (Some e) =>
      let* errs := validateStruct_ e fieldName in
      ret (finishStruct mv fieldName errs)
  | VStruct fs =>
      let* errs := validateStructFieldsLoop fs [] in
      ret (finishStruct mv fieldName errs)
  | VTime _ => ret []
  | _ => panic (numFieldPanic (kindOf (toInterface value)))
  end.

(** [deepValidateTaglessField]: the switch on the kind, the cases that call
    [validateStruct(value.Interface(), field)] written as the body of that
    call on the value at hand. *)
Definition deepBody (value : Value) (field : string) : M FieldErrors :=
  match value with
  | VIface None | VPtr None => ret []
  | VIface (Some _) | VPtr (Some _) | VStruct _ | VTime _ => validateStructBody value field
  | VArray l | VSlice l => validateCollectionLoop l 0 field []
  | VMap m => validateMapLoop m field []
  | _ => ret []
  end.

End Bodies.

(** The two methods, each calling the other on the values inside the one at
    hand.  A Go value that reaches itself through a pointer has no
    counterpart in [Value]; on such a value the Go code recurses without
    end. *)
Fixpoint validateStruct (mv : Validator) (value : Value) (fieldName : string) {struct value}
    : M FieldErrors :=
  validateStructBody mv (validateStruct mv) (deepValidateTaglessField mv) value fieldName
with deepValidateTaglessField (mv : Validator) (value : Value) (field : string) {struct value}
    : M FieldErrors :=
  deepBody mv (validateStruct mv) (deepValidateTaglessField mv) value field.

(** [Validator.Struct]. *)
Definition Struct_ (mv : Validator) (value : Value) : M (option error) :=
  let* errs := validateStruct mv value "" in
  ret (if (0 <? List.length errs)%nat then Some (ErrFieldErrors errs) else None).

End Validate.

(** ** [ValidationResult] *)

(** [FieldErrors.Error]. *)
Definition joinFields (ve : FieldErrors) : string :=
  fold_left (fun err fe =>
               (if negb (String.eqb err "") then err +:+ ", " else err) +:+ Field_ fe)
            ve "".

Definition FieldErrors_Error (ve : FieldErrors) : string :=
  if (List.length ve =? 1)%nat then "field is invalid: " +:+ joinFields ve
  else "fields are invalid: " +:+ joinFields ve.

Record ValidationResult := mkResult { Errors : FieldErrors }.

(** [AddError]. *)
Definition AddError (r : ValidationResult) (err : option error) : ValidationResult :=
  match err with
  | None => r
  | Some e =>
      match As_FieldErrors e with
      | Some fieldErrors =>
          fold_left (fun r fieldErr => mkResult (Errors r ++ [fieldErr])) fieldErrors r
      | None =>
          match As_FieldError e with
          | Some fieldError => mkResult (Errors r ++ [fieldError])
          | None => r
          end
      end
  end.

(** [AddErrors]. *)
Definition AddErrors (r : ValidationResult) (errs : list (option error)) : ValidationResult :=
  fold_left AddError errs r.

(** [NewResult]. *)
Definition NewResult (errs : list (option error)) : ValidationResult :=
  fold_left (fun result err => match err with Some _ => AddError result err | None => result end)
            errs (mkResult []).

(** [IsValid]. *)
Definition IsValid (r : ValidationResult) : bool := (List.length (Errors r) =? 0)%nat.

(** [Err]. *)
Definition Err (r : ValidationResult) : option error :=
  if IsValid r then None else Some (ErrFieldErrors (Errors r)).

(** [ValidationResult.Error]. *)
Definition Error_ (r : ValidationResult) : string :=
  if IsValid r then "" else FieldErrors_Error (Errors r).

(** ** Dates: [time.Parse] with the layout [2006-01-02], and the date rules

    A [time.Time] is the instant it denotes, in nanoseconds since the Unix
    epoch; [After], [Before] and [Equal] compare instants. *)

Definition nanosPerDay : Z := 86400000000000.

Definition digitOf (c : ascii) : option Z :=
  let n := Z.of_N (N_of_ascii c) in
  if (48 <=? n) && (n <=? 57) then Some (n - 48) else None.

Definition isLeap (y : Z) : bool :=
  ((y mod 4 =? 0) && negb (y mod 100 =? 0)) || (y mod 400 =? 0).

Definition daysIn (m y : Z) : Z :=
  if m =? 2 then (if isLeap y then 29 else 28)
  else if (m =? 4) || (m =? 6) || (m =? 9) || (m =? 11) then 30
  else 31.

(** Days from 1970-01-01 to the civil date [y]-[m]-[d]. *)
Definition daysFromCivil (y m d : Z) : Z :=
  let y' := if m <=? 2 then y - 1 else y in
  let era := y' / 400 in
  let yoe := y' - era * 400 in
  let doy := (153 * (if 2 <? m then m - 3 else m + 9) + 2) / 5 + d - 1 in
  let doe := yoe * 365 + yoe / 4 - yoe / 100 + doy in
  era * 146097 + doe - 719468.

(** The civil date of a day number. *)
Definition civilFromDays (z : Z) : Z * Z * Z :=
  let z := z + 719468 in
  let era := z / 146097 in
  let doe := z - era * 146097 in
  let yoe := (doe - doe / 1460 + doe / 36524 - doe / 146096) / 365 in
  let doy := doe - (365 * yoe + yoe / 4 - yoe / 100) in
  let mp := (5 * doy + 2) / 153 in
  let d := doy - (153 * mp + 2) / 5 + 1 in
  let m := if mp <? 10 then mp + 3 else mp - 9 in
  ((if m <=? 2 then yoe + era * 400 + 1 else yoe + era * 400), m, d).

(** [time.Parse("2006-01-02", s)]: four digits, a dash, two digits, a dash,
    two digits and nothing else, the month and the day in range; the
    instant is midnight UTC of that date.  [None] on an error. *)
Definition time_Parse (s : string) : option Z :=
  match s with
  | String y1 (String y2 (String y3 (String y4 (String s1
      (String m1 (String m2 (String s2 (String d1 (String d2 EmptyString))))))))) =>
      match digitOf y1, digitOf y2, digitOf y3, digitOf y4,
            digitOf m1, digitOf m2, digitOf d1, digitOf d2 with
      | Some a, Some b, Some c, Some d, Some e, Some f, Some g, Some h =>
          let y := a * 1000 + b * 100 + c * 10 + d in
          let m := e * 10 + f in
          let dd := g * 10 + h in
          if Ascii.eqb s1 "-" && Ascii.eqb s2 "-"
             && (1 <=? m) && (m <=? 12) && (1 <=? dd) && (dd <=? daysIn m y)
          then Some (daysFromCivil y m dd * nanosPerDay)
          else None
      | _, _, _, _, _, _, _, _ => None
      end
  | _ => None
  end.

(** [time.Date(d.Year(), d.Month(), d.Day(), 0, 0, 0, 0, d.Location())] for
    a [d] in UTC: midnight of the day of [d]. *)
Definition midnightOf (d : Z) : Z := d / nanosPerDay * nanosPerDay.

Definition twoDigits (n : Z) : string :=
  String (byteOf (48 + n / 10 mod 10)) (String (byteOf (48 + n mod 10)) EmptyString).

(** [t.Format("2006-01-02")] for a [t] in UTC in the years 0 to 9999. *)
Definition formatDate (t : Z) : string :=
  let '(y, m, d) := civilFromDays (t / nanosPerDay) in
  twoDigits (y / 100) +:+ twoDigits y +:+ "-" +:+ twoDigits m +:+ "-" +:+ twoDigits d.

Section DateRules.

(** What [time.Now()] reads when the rule runs. *)
Variable now : Z.

(** [parseDate].  The panic value is the error of [time.Parse], given here
    by the text it starts with. *)
Definition parseDate (date : string) : Res Z :=
  if String.eqb date "now" then Ok now
  else
    match time_Parse date with
    | Some d => Ok (midnightOf d)
    | None => Panic ("parsing time " +:+ date)
    end.

(** [nowToDateString]. *)
Definition nowToDateString (date : string) : string :=
  if String.eqb date "now" then formatDate now else date.

(** [MinDate]. *)
Definition MinDate (v : Value) (param : string) : Res bool :=
  match v with
  | VPtr None => Ok true
  | _ =>
      let st := match v with VPtr (Some e) => e | _ => v end in
      match st with
      | VString str =>
          if String.eqb str "" then Ok true
          else
            match time_Parse str with
            | None => Ok false
            | Some t =>
                match parseDate param with
                | Ok minDate => Ok ((minDate <? t) || (t =? minDate))
                | Panic msg => Panic msg
                end
            end
      | VStruct _ | VTime _ =>
          match v with
          | VTime t =>
              match parseDate param with
              | Ok minDate => Ok ((minDate <? t) || (t =? minDate))
              | Panic msg => Panic msg
              end
          | _ => Ok false
          end
      | _ => Panic "invalid type for mindate tag"
      end
  end.

(** [MinDateErr]. *)
Definition MinDateErr (field : string) (_ : Value) (_ param : string) : string :=
  field +:+ " minimum date is " +:+ nowToDateString param.

(** [MaxDate]. *)
Definition MaxDate (v : Value) (param : string) : Res bool :=
  match v with
  | VPtr None => Ok true
  | _ =>
      let st := match v with VPtr (Some e) => e | _ => v end in
      match st with
      | VString str =>
          if String.eqb str "" then Ok true
          else
            match time_Parse str with
            | None => Ok false
            | Some t =>
                match parseDate param with
                | Ok maxDate => Ok ((t <? maxDate) || (t =? maxDate))
                | Panic msg => Panic msg
                end
            end
      | VStruct _ | VTime _ =>
          match v with
          | VTime t =>
              match parseDate param with
              | Ok maxDate => Ok ((t <? maxDate) || (t =? maxDate))
              | Panic msg => Panic msg
              end
          | _ => Ok false
          end
      | _ => Panic "invalid type for maxdate tag"
      end
  end.

(** [MaxDateErr]. *)
Definition MaxDateErr (field : string) (_ : Value) (_ param : string) : string :=
  field +:+ " maximum date is " +:+ nowToDateString param.

(** The entries of [StandardRules] for the checkers above. *)
Definition requiredRule : ValidationRule := mkRule "required" Required (Some RequiredErr).
Definition optionalRule : ValidationRule := mkRule "optional" Optional None.
Definition mindateRule : ValidationRule := mkRule "mindate" MinDate (Some MinDateErr).
Definition maxdateRule : ValidationRule := mkRule "maxdate" MaxDate (Some MaxDateErr).

End DateRules.

(** * What the properties are stated with

    The forms, relations, validators and values the statements below name. *)

(** The zero, empty or absent form of each kind, as the specification
    lists them. *)
Inductive zeroForm : Value -> Prop :=
| zero_string : zeroForm (VString "")
| zero_pointer : zeroForm (VPtr None)
| zero_interface : zeroForm (VIface None)
| zero_slice : zeroForm (VSlice [])
| zero_array : zeroForm (VArray [])
| zero_map : zeroForm (VMap [])
| zero_int k : zeroForm (VInt k 0)
| zero_uint k : zeroForm (VUint k 0)
| zero_float k : zeroForm (VFloat k 0)
| zero_float32_neg : zeroForm (VFloat KFloat32 2147483648)
| zero_float64_neg : zeroForm (VFloat KFloat64 9223372036854775808)
| zero_bool : zeroForm (VBool false)
| zero_nokind : zeroForm VInvalid.

(** The kinds [Required] has a case for, a float being a bit pattern of
    its width. *)
Definition supportedValue (v : Value) : Prop :=
  match v with
  | VOther _ _ => False
  | VFloat KFloat32 bits => 0 <= bits < 4294967296
  | VFloat KFloat64 bits => 0 <= bits < 18446744073709551616
  | _ => True
  end.

(** The non-nil arguments, in order. *)
Fixpoint nonNil (errs : list (option error)) : list error :=
  match errs with
  | [] => []
  | Some e :: rest => e :: nonNil rest
  | None :: rest => nonNil rest
  end.

(** An error carries a [FieldError]: it is one, or it wraps an error that
    carries it. *)
Inductive carries : error -> FieldError -> Prop :=
| carries_here fe : carries (ErrFieldError fe) fe
| carries_wrap msg e fe : carries e fe -> carries (ErrWrap msg e) fe.

(** The calls made on a result after [NewResult]. *)
Inductive ResultCall :=
| CallAddError (err : option error)
| CallAddErrors (errs : list (option error)).

(** A result after one call, and after [NewResult] and a sequence of
    calls. *)
Definition applyCall (r : ValidationResult) (c : ResultCall) : ValidationResult :=
  match c with
  | CallAddError err => AddError r err
  | CallAddErrors errs => AddErrors r errs
  end.

Definition afterCalls (errs : list (option error)) (cs : list ResultCall) : ValidationResult :=
  fold_left applyCall cs (NewResult errs).

(** The log entry of the invocation of the checker of [t] on [v]. *)
Definition callOf (v : Value) (t : Tag) : Call := (RuleTag (Rule t), (v, Param t)).

(** The state after the checker invocations [cs] were made. *)
Definition logCalls (s : State) (cs : list Call) : State :=
  mkState (tagCache s) (calls s ++ cs).

(** The checker of a tag returns true, or false, on a value. *)
Definition passes (v : Value) (t : Tag) : Prop := Checker (Rule t) v (Param t) = Ok true.
Definition fails (v : Value) (t : Tag) : Prop := Checker (Rule t) v (Param t) = Ok false.

(** What a failing tag makes of the field: nothing when its rule has no
    formatter, else the one [FieldError] of the formatter. *)
Definition failureOf (t : Tag) (v : Value) (field : string) : option error :=
  match ErrorFunc (Rule t) with
  | None => None
  | Some errorFunc =>
      Some (ErrFieldError (mkFieldError field (errorFunc field v (Name t) (Param t))))
  end.

(** The value [Field] hands to [singleField]: pointers followed to their
    end, an interface slot standing for what it holds. *)
Fixpoint settle (val : Value) : Value :=
  match val with
  | VPtr (Some e) => settle e
  | VIface (Some x) => settle x
  | VIface None => VInvalid
  | _ => val
  end.

(** [%q] on a string of printable ASCII without quote or backslash. *)
Definition quoteAscii (s : string) : string :=
  String dquote s +:+ String dquote EmptyString.

(** A rendering of [%+v]; the examples have no map. *)
Definition fmtAny (_ : Value) : string := "?".

(** The state of a process in which nothing was parsed or checked yet. *)
Definition emptyState : State := mkState ∅ [].

(** [NewValidator()] with the rules [required] and [optional] added. *)
Definition basicValidator : Validator :=
  AddRule (AddRule NewValidator requiredRule) optionalRule.

(** The tags the declarations [optional] and [required] resolve to. *)
Definition optionalTag : Tag := mkTag "optional" optionalRule "".
Definition requiredTag : Tag := mkTag "required" requiredRule "".

(** A nil pointer or a nil interface. *)
Definition isNilSlot (v : Value) : Prop := v = VPtr None \/ v = VIface None.

(** The struct tag [validate:"decl"]. *)
Definition validateTag (decl : string) : StructTag := [("validate", decl)].

(** A value that holds no other value. *)
Definition isLeaf (v : Value) : Prop :=
  match v with
  | VPtr (Some _) | VIface (Some _) | VSlice _ | VArray _ | VMap _ | VStruct _ => False
  | _ => True
  end.

(** Two outcomes agree up to a relation on their results: the same panic
    or results in the relation, and the same state. *)
Definition relM {A} (R : A -> A -> Prop) (o1 o2 : Res A * State) : Prop :=
  match o1, o2 with
  | (Ok a1, s1), (Ok a2, s2) => R a1 a2 /\ s1 = s2
  | (Panic m1, s1), (Panic m2, s2) => m1 = m2 /\ s1 = s2
  | _, _ => False
  end.

(** The same failure, reported under a longer path. *)
Definition pathRel (full short : FieldError) : Prop :=
  Description full = Description short /\
  exists path, Field_ full = path +:+ Field_ short.

(** The field of a failure starts with a name and a dot. *)
Definition underPath (name : string) (e : FieldError) : Prop :=
  exists field, Field_ e = name +:+ "." +:+ field.

(** The two modes agree at a value, whatever name it is nested under: the
    same outcome up to the paths of the fields. *)
Definition modesAgree (quote : string -> string) (fmtValue : Value -> string)
    (mv : Validator) (v : Value) : Prop :=
  forall n1 n2 s,
    relM (Forall2 pathRel)
         (validateStruct quote fmtValue (WithFullErrorPath mv) v n1 s)
         (validateStruct quote fmtValue mv v n2 s) /\
    relM (Forall2 pathRel)
         (deepValidateTaglessField quote fmtValue (WithFullErrorPath mv) v n1 s)
         (deepValidateTaglessField quote fmtValue mv v n2 s).

(** The field name a value is nested under is not used. *)
Definition nameUnused (quote : string -> string) (fmtValue : Value -> string)
    (mv : Validator) (v : Value) : Prop :=
  forall n1 n2 s,
    validateStruct quote fmtValue mv v n1 s = validateStruct quote fmtValue mv v n2 s /\
    deepValidateTaglessField quote fmtValue mv v n1 s
    = deepValidateTaglessField quote fmtValue mv v n2 s.

(** [requiredStruct] of the tests, all fields zero. *)
Definition requiredStruct : Value :=
  VStruct [("String", (validateTag "required", VString ""));
           ("Array", (validateTag "required", VArray [VString ""; VString ""; VString ""; VString ""]));
           ("Slice", (validateTag "required", VSlice []));
           ("Map", (validateTag "required", VMap []));
           ("Int", (validateTag "required", VInt KInt 0));
           ("Int8", (validateTag "required", VInt KInt8 0));
           ("Int16", (validateTag "required", VInt KInt16 0));
           ("Int32", (validateTag "required", VInt KInt32 0));
           ("Int64", (validateTag "required", VInt KInt64 0));
           ("Uint", (validateTag "required", VUint KUint 0));
           ("Uint8", (validateTag "required", VUint KUint8 0));
           ("Uint16", (validateTag "required", VUint KUint16 0));
           ("Uint32", (validateTag "required", VUint KUint32 0));
           ("Uint64", (validateTag "required", VUint KUint64 0));
           ("Float32", (validateTag "required", VFloat KFloat32 0));
           ("Float64", (validateTag "required", VFloat KFloat64 0));
           ("Interface", (validateTag "required", VIface None));
           ("Pointer", (validateTag "required", VPtr None));
           ("Bool", (validateTag "required", VBool false));
           ("Chan", (validateTag "required", VOther KChan true));
           ("Struct", (validateTag "required", VStruct []))].

(** The innermost struct of [complexStruct]. *)
Definition sub2Struct : Value :=
  VStruct [("A", (validateTag "required", VInt KInt 0))].

(** [complexStruct] of the tests, all fields zero. *)
Definition complexStruct : Value :=
  VStruct [("A", (validateTag "required", VInt KInt 0));
           ("Sub", ([], VStruct [("A", (validateTag "required", VInt KInt 0));
                                 ("B", ([], VString ""));
                                 ("C", (validateTag "required", VFloat KFloat64 0));
                                 ("D", (validateTag "required", VPtr None));
                                 ("Sub2", ([], sub2Struct))]))].

(** The fields, and the descriptions, of the [FieldErrors] an outcome
    carries. *)
Definition fieldsOf (o : Res (option error) * State) : list string :=
  match fst o with
  | Ok (Some (ErrFieldErrors errs)) => map Field_ errs
  | _ => []
  end.

Definition descriptionsOf (o : Res (option error) * State) : list string :=
  match fst o with
  | Ok (Some (ErrFieldErrors errs)) => map Description errs
  | _ => []
  end.

(** A name the parser resolves: not empty, and a registered rule or a
    registered alias. *)
Definition knownName (mv : Validator) (name : string) : Prop :=
  name <> "" /\ (is_Some (rules mv !! name) \/ is_Some (tagAliases mv !! name)).

(** The state in which [basicValidator] has parsed the declaration
    [required]. *)
Definition requiredCached : State := mkState (<["required" := [requiredTag]]> ∅) [].

(** A struct with the field [Items], a slice of one struct whose [required]
    field [A] is zero. *)
Definition itemsStruct : Value :=
  VStruct [("Items", ([], VSlice [VStruct [("A", (validateTag "required", VInt KInt 0))]]))].

(** 2024-03-15T12:00:00Z. *)
Definition noon20240315 : Z := 1710504000000000000.

(** ** What the further properties are stated with *)

(** What one piece of a declaration resolves to: the tag of the rule of
    that name, else the tags stored for the alias of that name; [None] when
    the name is empty or unknown. *)
Definition resolvePiece (mv : Validator) (i : string) : option (list Tag) :=
  if String.eqb (specName i) "" then None
  else
    match rules mv !! specName i with
    | Some rule => Some [mkTag (specName i) rule (specParam i)]
    | None => tagAliases mv !! specName i
    end.

(** All pieces resolved, in order. *)
Fixpoint resolvePieces (mv : Validator) (tl : list string) : option (list Tag) :=
  match tl with
  | [] => Some []
  | i :: rest =>
      match resolvePiece mv i, resolvePieces mv rest with
      | Some tags, Some tags' => Some (tags ++ tags')
      | _, _ => None
      end
  end.

(** The byte [c] occurs in [s]. *)
Fixpoint hasChar (c : ascii) (s : string) : bool :=
  match s with
  | String c' r => Ascii.eqb c' c || hasChar c r
  | EmptyString => false
  end.

Definition firstChar (s : string) : option ascii :=
  match s with
  | String c _ => Some c
  | EmptyString => None
  end.

Fixpoint lastChar (s : string) : option ascii :=
  match s with
  | String c EmptyString => Some c
  | String _ r => lastChar r
  | EmptyString => None
  end.

(** A name as one writes it in a declaration: not empty, without comma or
    equals sign, and without a space at either end. *)
Definition plainName (n : string) : Prop :=
  n <> "" /\ hasChar comma n = false /\ hasChar equals n = false /\
  firstChar n <> Some space /\ lastChar n <> Some space.

(** The state [s'] keeps what [s] has: every cached declaration with its
    tags, and the log of checker invocations as a prefix. *)
Definition stateGrows (s s' : State) : Prop :=
  (forall t tags, tagCache s !! t = Some tags -> tagCache s' !! t = Some tags) /\
  exists cs, calls s' = calls s ++ cs.

(** A computation keeps what the state has, whatever state it starts in. *)
Definition growsM {A} (m : M A) : Prop := forall s, stateGrows s (snd (m s)).

(** The outcome with [result] in front of its errors. *)
Definition withResult (result : FieldErrors) (o : Res FieldErrors * State)
    : Res FieldErrors * State :=
  match o with
  | (Ok errs, s) => (Ok (result ++ errs), s)
  | (Panic msg, s) => (Panic msg, s)
  end.

(** ** The texts of errors, and [grpc/errors.go] *)

(** [FieldError.Error]. *)
Definition FieldError_Error (fe : FieldError) : string :=
  "field is invalid: " +:+ Field_ fe.

(** [err.Error()], what [%s] prints of an error: an error that is no
    [FieldError] and no [FieldErrors] is given by its text. *)
Definition errorText (e : error) : string :=
  match e with
  | ErrFieldError fe => FieldError_Error fe
  | ErrFieldErrors fes => FieldErrors_Error fes
  | ErrOther msg => msg
  | ErrWrap msg _ => msg
  end.

(** The codes of [google.golang.org/grpc/codes] the package uses. *)
Inductive Code := Internal | InvalidArgument.

(** [errdetails.BadRequest_FieldViolation]. *)
Record FieldViolation := mkViolation { fvField : string; fvDescription : string }.

(** A [status.Status] with a code that is not [OK]: code, message and the
    details, each detail here a [BadRequest], the list of its violations. *)
Record Status := mkStatus {
  code : Code;
  message : string;
  details : list (list FieldViolation)
}.

(** The violation of a [FieldError]. *)
Definition violationOf (fieldErr : FieldError) : FieldViolation :=
  mkViolation (Field_ fieldErr) (Description fieldErr).

Section Grpc.

(** The error of marshalling a [BadRequest] into the details of a status,
    [None] when it succeeds: the one way [Status.WithDetails] fails on a
    status whose code is not [OK]. *)
Variable marshalError : list FieldViolation -> option string.

(** [st.WithDetails(br)] on the status [status.New(codes.InvalidArgument,
    msg)], then the two returns that follow it. *)
Definition invalidArgument (msg : string) (br : list FieldViolation) : Status :=
  match marshalError br with
  | Some err => mkStatus Internal ("failed creating invalid argument error: " +:+ err) []
  | None => mkStatus InvalidArgument msg [br]
  end.

(** [ValidationErrors]. *)
Definition ValidationErrors (err : option error) : option Status :=
  match err with
  | None => None
  | Some e =>
      match As_FieldErrors e with
      | None => Some (mkStatus Internal ("unexpected error type: " +:+ errorText e) [])
      | Some errs =>
          if (List.length errs =? 0)%nat then None
          else Some (invalidArgument (FieldErrors_Error errs) (map violationOf errs))
      end
  end.

(** [ValidationError]. *)
Definition ValidationError (err : option error) : option Status :=
  match err with
  | None => None
  | Some e =>
      match As_FieldError e with
      | None => Some (mkStatus Internal ("unexpected error type: " +:+ errorText e) [])
      | Some fieldErr =>
          Some (invalidArgument (FieldError_Error fieldErr) [violationOf fieldErr])
      end
  end.

End Grpc.

(** What [AddError] takes from an error: its [FieldErrors], else its
    [FieldError], else nothing. *)
Definition taken (err : option error) : FieldErrors :=
  match err with
  | None => []
  | Some e =>
      match As_FieldErrors e with
      | Some fieldErrors => fieldErrors
      | None =>
          match As_FieldError e with
          | Some fieldError => [fieldError]
          | None => []
          end
      end
  end.

(** A value [validateStruct] has no case for: no struct, no pointer and no
    interface slot. *)
Definition notStructLike (v : Value) : Prop :=
  match v with
  | VPtr _ | VIface _ | VStruct _ | VTime _ => False
  | _ => True
  end.

(** ** Induction on values *)

Section ValueInduction.

Variable P : Value -> Prop.

Hypothesis HInvalid : P VInvalid.
Hypothesis HBool : forall b, P (VBool b).
Hypothesis HInt : forall k n, P (VInt k n).
Hypothesis HUint : forall k n, P (VUint k n).
Hypothesis HFloat : forall k bits, P (VFloat k bits).
Hypothesis HString : forall s, P (VString s).
Hypothesis HPtrNil : P (VPtr None).
Hypothesis HPtr : forall e, P e -> P (VPtr (Some e)).
Hypothesis HIfaceNil : P (VIface None).
Hypothesis HIface : forall x, P x -> P (VIface (Some x)).
Hypothesis HSlice : forall l, Forall P l -> P (VSlice l).
Hypothesis HArray : forall l, Forall P l -> P (VArray l).
Hypothesis HMap : forall m, Forall (fun kv => P (fst kv) /\ P (snd kv)) m -> P (VMap m).
Hypothesis HStruct : forall fs, Forall (fun f => P (snd (snd f))) fs -> P (VStruct fs).
Hypothesis HTime : forall t, P (VTime t).
Hypothesis HOther : forall k isnil, P (VOther k isnil).

Fixpoint Value_nested_ind (v : Value) : P v :=
  match v with
  | VInvalid => HInvalid
  | VBool b => HBool b
  | VInt k n => HInt k n
  | VUint k n => HUint k n
  | VFloat k bits => HFloat k bits
  | VString s => HString s
  | VPtr None => HPtrNil
  | VPtr (Some e) => HPtr e (Value_nested_ind e)
  | VIface None => HIfaceNil
  | VIface (Some x) => HIface x (Value_nested_ind x)
  | VSlice l =>
      HSlice l ((fix go (l : list Value) : Forall P l :=
                   match l with
                   | [] => List.Forall_nil P
                   | x :: r => List.Forall_cons P x r (Value_nested_ind x) (go r)
                   end) l)
  | VArray l =>
      HArray l ((fix go (l : list Value) : Forall P l :=
                   match l with
                   | [] => List.Forall_nil P
                   | x :: r => List.Forall_cons P x r (Value_nested_ind x) (go r)
                   end) l)
  | VMap m =>
      HMap m ((fix go (m : list (Value * Value))
                 : Forall (fun kv => P (fst kv) /\ P (snd kv)) m :=
                 match m with
                 | [] => List.Forall_nil _
                 | (k, x) :: r =>
                     List.Forall_cons _ (k, x) r
                       (conj (Value_nested_ind k) (Value_nested_ind x)) (go r)
                 end) m)
  | VStruct fs =>
      HStruct fs ((fix go (fs : list (string * (StructTag * Value)))
                     : Forall (fun f => P (snd (snd f))) fs :=
                     match fs with
                     | [] => List.Forall_nil _
                     | (n, (t, x)) :: r =>
                         List.Forall_cons _ (n, (t, x)) r (Value_nested_ind x) (go r)
                     end) fs)
  | VTime t => HTime t
  | VOther k isnil => HOther k isnil
  end.

End ValueInduction.

(** * Properties *)

(** ** The embedding on the inputs of the tests *)

Example split_plain :
  splitUnescapedComma "required,gte=3,lte=25" = ["required"; "gte=3"; "lte=25"].
Proof. reflexivity. Qed.

Example split_escaped :
  splitUnescapedComma ("a=1" +:+ String backslash ",2,b")
  = ["a=1" +:+ String backslash ",2"; "b"] /\
  specName ("a=1" +:+ String backslash ",2") = "a" /\
  specParam ("a=1" +:+ String backslash ",2") = "1,2".
Proof. repeat split; reflexivity. Qed.

Example split_empty : splitUnescapedComma "" = [""].
Proof. reflexivity. Qed.

(** *** The fuel of [sepPattern_findAll] is enough *)

Lemma evenRunComma_bound (n : nat) (s : string) (k : nat) :
  (String.length s <= n)%nat -> evenRunComma s = Some k ->
  (1 <= k <= String.length s)%nat.
Proof.
  revert s k. induction n as [| n IH]; intros s k Hlen H.
  - destruct s; [discriminate H | simpl in Hlen; lia].
  - destruct s as [| c r]; [discriminate H |]. simpl in H.
    destruct (Ascii.eqb c comma); [inversion H; simpl; lia |].
    destruct (Ascii.eqb c backslash); [| discriminate H].
    destruct r as [| c' r']; [discriminate H |].
    destruct (Ascii.eqb c' backslash); [| discriminate H].
    destruct (evenRunComma r') as [m |] eqn:Hm; [| discriminate H].
    inversion H; subst. simpl in Hlen.
    destruct (IH r' m ltac:(lia) Hm). simpl. lia.
Qed.

Lemma sepPattern_matchAt_bound (atStart : bool) (s : string) (k : nat) :
  sepPattern_matchAt atStart s = Some k -> (1 <= k <= String.length s)%nat.
Proof.
  unfold sepPattern_matchAt. intros H.
  destruct (if atStart then evenRunComma s else None) as [m |] eqn:Hm.
  - inversion H; subst. destruct atStart; [| discriminate Hm].
    apply (evenRunComma_bound (String.length s)); [lia | exact Hm].
  - destruct s as [| c r]; [discriminate H |].
    destruct (Ascii.eqb c backslash); [discriminate H |].
    destruct (evenRunComma r) as [m |] eqn:Hr; [| discriminate H].
    inversion H; subst.
    destruct (evenRunComma_bound (String.length r) r m ltac:(lia) Hr). simpl. lia.
Qed.

Lemma sepPattern_find_bound (pos : nat) (s : string) (b e : nat) :
  sepPattern_find pos s = Some (b, e) ->
  (pos <= b /\ b < e /\ e <= pos + String.length s)%nat.
Proof.
  revert pos. induction s as [| c r IH]; intros pos H; simpl in H.
  - destruct (sepPattern_matchAt (pos =? 0)%nat "") as [k |] eqn:Hk; [| discriminate H].
    apply sepPattern_matchAt_bound in Hk. simpl in Hk. lia.
  - destruct (sepPattern_matchAt (pos =? 0)%nat (String c r)) as [k |] eqn:Hk.
    + inversion H; subst. apply sepPattern_matchAt_bound in Hk. simpl in *. lia.
    + apply IH in H. simpl. lia.
Qed.

Lemma length_dropString (n : nat) (s : string) :
  (n <= String.length s)%nat ->
  String.length (dropString n s) = (String.length s - n)%nat.
Proof.
  revert s. induction n as [| n IH]; intros s Hn.
  - destruct s; simpl; lia.
  - destruct s as [| c r]; simpl in *; [lia |]. apply IH. lia.
Qed.

(** More fuel than the text is long changes nothing: the search for
    separators always runs to the end of the text. *)
Lemma sepPattern_findAll_fuel (fuel1 fuel2 pos : nat) (s : string) :
  (String.length s < fuel1)%nat -> (String.length s < fuel2)%nat ->
  sepPattern_findAll fuel1 pos s = sepPattern_findAll fuel2 pos s.
Proof.
  revert fuel2 pos s. induction fuel1 as [| fuel1 IH]; intros fuel2 pos s H1 H2; [lia |].
  destruct fuel2 as [| fuel2]; [lia |]. simpl.
  destruct (sepPattern_find pos s) as [[b e] |] eqn:Hf; [| reflexivity].
  apply sepPattern_find_bound in Hf. f_equal.
  apply IH; rewrite length_dropString by lia; lia.
Qed.

(** [TestStruct_Required]. *)
Example requiredStruct_fields :
  fieldsOf (Struct_ quoteAscii fmtAny basicValidator (VPtr (Some requiredStruct)) emptyState)
  = ["String"; "Slice"; "Map"; "Int"; "Int8"; "Int16"; "Int32"; "Int64";
     "Uint"; "Uint8"; "Uint16"; "Uint32"; "Uint64"; "Float32"; "Float64";
     "Interface"; "Pointer"; "Bool"; "Chan"].
Proof. reflexivity. Qed.

(** [TestField_Required] and [TestRules_InvalidTypes] on the empty and the
    unknown declaration. *)
Example Field_required_empty :
  fst (Field quoteAscii basicValidator (VString "") "Name" "required" emptyState)
  = Ok (Some (ErrFieldError (mkFieldError "Name" "Name is required"))) /\
  fst (Field quoteAscii basicValidator (VBool false) "TEST" "" emptyState)
  = Panic ("unknown validate tag " +:+ quoteAscii "") /\
  fst (Field quoteAscii basicValidator (VBool false) "TEST" "unknown" emptyState)
  = Panic ("unknown validate tag " +:+ quoteAscii "unknown").
Proof. repeat split; reflexivity. Qed.

(** ** [required] *)

Lemma land_low_zero (bits : Z) (n : Z) :
  0 <= n -> 0 <= bits < 2 ^ (n + 1) ->
  (Z.land bits (Z.ones n) = 0 <-> bits = 0 \/ bits = 2 ^ n).
Proof.
  intros Hn Hb. rewrite Z.land_ones by lia.
  assert (Hp : 0 < 2 ^ n) by (apply Z.pow_pos_nonneg; lia).
  assert (H2 : 2 ^ (n + 1) = 2 * 2 ^ n) by (rewrite Z.pow_add_r by lia; lia).
  pose proof (Z.div_mod bits (2 ^ n) ltac:(lia)) as Hdm.
  pose proof (Z.mod_pos_bound bits (2 ^ n) Hp) as Hm.
  split.
  - intros H0. rewrite H0 in Hdm.
    assert (Hq : 0 <= bits / 2 ^ n < 2).
    { split; [apply Z.div_pos; lia | apply Z.div_lt_upper_bound; lia]. }
    assert (Hc : bits / 2 ^ n = 0 \/ bits / 2 ^ n = 1) by lia.
    destruct Hc as [Hc | Hc]; rewrite Hc in Hdm; lia.
  - intros [-> | ->].
    + apply Z.mod_0_l. lia.
    + apply Z.mod_same. lia.
Qed.

Lemma floatNonZero_false (k : floatKind) (bits : Z) :
  supportedValue (VFloat k bits) ->
  (floatNonZero k bits = false <-> zeroForm (VFloat k bits)).
Proof.
  destruct k; simpl; intros Hb; rewrite negb_false_iff, Z.eqb_eq.
  - change 2147483647 with (Z.ones 31).
    rewrite (land_low_zero bits 31) by (simpl; lia).
    split.
    + intros [-> | ->]; constructor.
    + intros H. inversion H; subst; auto.
  - change 9223372036854775807 with (Z.ones 63).
    rewrite (land_low_zero bits 63) by (simpl; lia).
    split.
    + intros [-> | ->]; constructor.
    + intros H. inversion H; subst; auto.
Qed.

Lemma Required_false_iff (v : Value) (p : string) :
  supportedValue v -> (Required v p = Ok false <-> zeroForm v).
Proof.
  intros Hs. destruct v; simpl in *.
  - split; [constructor | reflexivity].
  - destruct b; split; intros H; try constructor; try discriminate; inversion H.
  - destruct (Z.eqb_spec n 0) as [-> | Hn]; simpl; split; intros H;
      try constructor; try discriminate; try reflexivity.
    inversion H; subst; contradiction.
  - destruct (Z.eqb_spec n 0) as [-> | Hn]; simpl; split; intros H;
      try constructor; try discriminate; try reflexivity.
    inversion H; subst; contradiction.
  - rewrite <- (floatNonZero_false k bits) by (destruct k; exact Hs).
    split; intros H; [congruence | rewrite H; reflexivity].
  - destruct s; simpl; split; intros H; try constructor; try discriminate;
      try reflexivity; inversion H.
  - destruct p0; split; intros H; try constructor; try discriminate;
      try reflexivity; inversion H.
  - destruct i; split; intros H; try constructor; try discriminate;
      try reflexivity; inversion H.
  - destruct l; simpl; split; intros H; try constructor; try discriminate;
      try reflexivity; inversion H.
  - destruct l; simpl; split; intros H; try constructor; try discriminate;
      try reflexivity; inversion H.
  - destruct m; simpl; split; intros H; try constructor; try discriminate;
      try reflexivity; inversion H.
  - split; intros H; [discriminate | inversion H].
  - split; intros H; [discriminate | inversion H].
  - contradiction.
Qed.

Lemma Required_total (v : Value) (p : string) :
  Required v p = Ok false \/ Required v p = Ok true.
Proof.
  destruct v; simpl;
    repeat match goal with
           | |- context [negb ?b] => destruct b; simpl
           | |- context [floatNonZero ?k ?b] => destruct (floatNonZero k b)
           | |- context [match ?o with None => _ | Some _ => _ end] => destruct o
           | b : bool |- _ => destruct b
           end; auto.
Qed.

(** C2. On every value of a kind [Required] supports, the checker returns
    false exactly on the zero, empty or absent form of that kind and true
    on every other value; a struct passes whatever its fields hold, and the
    nil interface fails. *)
Theorem Required_zero_form (v : Value) (p : string) :
  supportedValue v ->
  (Required v p = Ok false <-> zeroForm v) /\
  (Required v p = Ok true <-> ~ zeroForm v) /\
  (forall fs, Required (VStruct fs) p = Ok true) /\
  Required VInvalid p = Ok false.
Proof.
  intros Hs. pose proof (Required_false_iff v p Hs) as Hf.
  repeat split; try reflexivity.
  - apply Hf.
  - apply Hf.
  - intros Ht Hz. apply Hf in Hz. congruence.
  - intros Hz. destruct (Required_total v p) as [H | H]; [| exact H].
    apply Hf in H. contradiction.
Qed.

Lemma Required_zero_form_witness :
  supportedValue (VFloat KFloat64 9223372036854775808) /\
  Required (VFloat KFloat64 9223372036854775808) "" = Ok false /\
  Required (VString "x") "" = Ok true.
Proof.
  assert (Hs : supportedValue (VFloat KFloat64 9223372036854775808)) by (simpl; lia).
  split; [exact Hs |].
  split.
  - exact (proj2 (proj1 (Required_zero_form _ "" Hs)) zero_float64_neg).
  - refine (proj2 (proj1 (proj2 (Required_zero_form (VString "x") "" I))) _).
    intros H; inversion H.
Defined.

(** ** [Fields] *)

Lemma carries_As (e : error) (fe : FieldError) :
  carries e fe -> As_FieldError e = Some fe.
Proof. induction 1; simpl; auto. Qed.

Lemma FieldsLoop_length (errs : list (option error)) (result : FieldErrors) :
  List.length (FieldsLoop errs result) = (List.length result + List.length (nonNil errs))%nat.
Proof.
  revert result. induction errs as [| [e |] rest IH]; intros result; simpl.
  - lia.
  - rewrite IH, length_app. simpl. lia.
  - apply IH.
Qed.

Lemma FieldsLoop_carried (errs : list (option error)) (fes result : FieldErrors) :
  Forall2 carries (nonNil errs) fes -> FieldsLoop errs result = result ++ fes.
Proof.
  revert fes result. induction errs as [| [e |] rest IH]; intros fes result H; simpl in *.
  - inversion H. symmetry. apply app_nil_r.
  - inversion H as [| ? fe ? fes' Hc Hrest]; subst.
    rewrite (carries_As _ _ Hc), (IH fes' _ Hrest), <- app_assoc. reflexivity.
  - apply IH, H.
Qed.

Lemma nonNil_nil (errs : list (option error)) :
  nonNil errs = [] <-> Forall (fun e => e = None) errs.
Proof.
  induction errs as [| [e |] rest IH]; simpl.
  - split; auto.
  - split; [discriminate | intros H; inversion H; discriminate].
  - rewrite IH. split; intros H; [constructor; auto | inversion H; auto].
Qed.



(** ** [ValidationResult] *)

Lemma FieldErrors_Error_nonempty (ve : FieldErrors) : FieldErrors_Error ve <> "".
Proof. unfold FieldErrors_Error. destruct (List.length ve =? 1)%nat; discriminate. Qed.

Lemma observers_agree (r : ValidationResult) :
  (IsValid r = true <-> Errors r = []) /\
  (Err r = None <-> IsValid r = true) /\
  (IsValid r = false -> Err r = Some (ErrFieldErrors (Errors r))) /\
  (Error_ r = "" <-> IsValid r = true).
Proof.
  unfold Err, Error_, IsValid. destruct r as [[| e es]]; simpl.
  - repeat split; auto; discriminate.
  - repeat split; auto; try discriminate.
    intros H. exfalso. exact (FieldErrors_Error_nonempty _ H).
Qed.

(** C10. After [NewResult] and any sequence of [AddError] and [AddErrors]
    calls the observers agree: [IsValid] is true exactly when [Errors] is
    empty, [Err] is nil exactly when [IsValid] is true and is the
    accumulated [FieldErrors] otherwise, and [Error] is the empty string
    exactly when [IsValid] is true. *)
Theorem ValidationResult_observers (errs : list (option error)) (cs : list ResultCall) :
  let r := afterCalls errs cs in
  (IsValid r = true <-> Errors r = []) /\
  (Err r = None <-> IsValid r = true) /\
  (IsValid r = false -> Err r = Some (ErrFieldErrors (Errors r))) /\
  (Error_ r = "" <-> IsValid r = true).
Proof. intros r. apply observers_agree. Qed.

Lemma ValidationResult_observers_witness :
  let r := afterCalls [Some (ErrFieldError (mkFieldError "A" "a"))]
                      [CallAddErrors [None; Some (ErrFieldErrors [mkFieldError "B" "b"])]] in
  Errors r = [mkFieldError "A" "a"; mkFieldError "B" "b"] /\
  Err r = Some (ErrFieldErrors (Errors r)) /\
  Error_ r = "fields are invalid: A, B".
Proof.
  intros r. split; [reflexivity |]. split; [| reflexivity].
  apply (ValidationResult_observers
           [Some (ErrFieldError (mkFieldError "A" "a"))]
           [CallAddErrors [None; Some (ErrFieldErrors [mkFieldError "B" "b"])]]).
  reflexivity.
Defined.

(** ** The rule chain *)

Lemma logCalls_nil (s : State) : logCalls s [] = s.
Proof. destruct s. unfold logCalls. simpl. rewrite app_nil_r. reflexivity. Qed.

Lemma logCalls_app (s : State) (a b : list Call) :
  logCalls (logCalls s a) b = logCalls s (a ++ b).
Proof. unfold logCalls. simpl. rewrite app_assoc. reflexivity. Qed.

Lemma callChecker_Ok (t : Tag) (v : Value) (b : bool) (s : State) :
  Checker (Rule t) v (Param t) = Ok b ->
  callChecker t v s = (Ok b, logCalls s [callOf v t]).
Proof. intros H. unfold callChecker. rewrite H. reflexivity. Qed.

Lemma evalTags_all_pass (tags : list Tag) (v : Value) (field : string) (s : State) :
  Forall (passes v) tags ->
  evalTags tags v field s = (Ok None, logCalls s (map (callOf v) tags)).
Proof.
  revert s. induction tags as [| t rest IH]; intros s H; simpl.
  - rewrite logCalls_nil. reflexivity.
  - inversion H as [| ? ? Ht Hrest]; subst.
    unfold bind. rewrite (callChecker_Ok t v true s Ht).
    rewrite (IH _ Hrest), logCalls_app. reflexivity.
Qed.

Lemma evalTags_first_failure (pre post : list Tag) (t : Tag) (v : Value)
    (field : string) (s : State) :
  Forall (passes v) pre -> fails v t ->
  evalTags (pre ++ t :: post) v field s
  = (Ok (failureOf t v field), logCalls s (map (callOf v) (pre ++ [t]))).
Proof.
  revert s. induction pre as [| p pre IH]; intros s Hpre Ht; simpl.
  - unfold bind. rewrite (callChecker_Ok t v false s Ht).
    unfold failureOf. destruct (ErrorFunc (Rule t)); reflexivity.
  - inversion Hpre as [| ? ? Hp Hrest]; subst.
    unfold bind. rewrite (callChecker_Ok p v true s Hp).
    rewrite (IH _ Hrest Ht), logCalls_app. reflexivity.
Qed.

Lemma Field_settle (quote : string -> string) (mv : Validator) (val : Value)
    (field tags : string) :
  tags <> "-" ->
  Field quote mv val field tags = singleField quote mv (settle val) field tags.
Proof.
  intros Hne. apply String.eqb_neq in Hne.
  induction val using Value_nested_ind; simpl; rewrite Hne; auto.
Qed.

(** C1. The tags a declaration resolves to are evaluated in order.  While
    the checkers return true the evaluation goes on, and it returns nil
    when all do.  At the first checker that returns false it ends: with
    nil when that tag's rule has no formatter, else with the one
    [FieldError] of the field and the formatter's text; the checkers
    invoked are those up to that tag and no later one.  [Field] does so on
    the value behind the pointers. *)
Theorem singleField_first_failure (quote : string -> string) (mv : Validator)
    (v : Value) (field decl : string) (s s' : State) (tags : list Tag) :
  mustParseTags quote mv decl s = (Ok tags, s') ->
  (Forall (passes v) tags ->
   singleField quote mv v field decl s = (Ok None, logCalls s' (map (callOf v) tags))) /\
  (forall pre t post,
      tags = pre ++ t :: post -> Forall (passes v) pre -> fails v t ->
      singleField quote mv v field decl s
      = (Ok (failureOf t v field), logCalls s' (map (callOf v) (pre ++ [t])))) /\
  (forall val, decl <> "-" -> settle val = v ->
      Field quote mv val field decl s = singleField quote mv v field decl s).
Proof.
  intros Hparse. split; [| split].
  - intros Hall. unfold singleField, bind. rewrite Hparse.
    apply evalTags_all_pass, Hall.
  - intros pre t post -> Hpre Ht. unfold singleField, bind. rewrite Hparse.
    apply evalTags_first_failure; assumption.
  - intros val Hne <-. rewrite (Field_settle quote mv val field decl Hne). reflexivity.
Qed.

Lemma singleField_first_failure_witness :
  singleField quoteAscii basicValidator (VString "") "Name" "optional,required" emptyState
  = (Ok None,
     logCalls (mkState (<["optional,required" := [optionalTag; requiredTag]]> ∅) [])
              [("optional", (VString "", ""))]) /\
  singleField quoteAscii basicValidator (VString "") "Name" "required" emptyState
  = (Ok (Some (ErrFieldError (mkFieldError "Name" "Name is required"))),
     logCalls (mkState (<["required" := [requiredTag]]> ∅) [])
              [("required", (VString "", ""))]).
Proof.
  split.
  - refine (proj1 (proj2 (singleField_first_failure quoteAscii basicValidator (VString "")
              "Name" "optional,required" emptyState _ [optionalTag; requiredTag] _))
              [] optionalTag [requiredTag] _ _ _);
      [reflexivity | reflexivity | constructor | reflexivity].
  - refine (proj1 (proj2 (singleField_first_failure quoteAscii basicValidator (VString "")
              "Name" "required" emptyState _ [requiredTag] _))
              [] requiredTag [] _ _ _);
      [reflexivity | reflexivity | constructor | reflexivity].
Defined.

(** ** The traverser: unfolding *)

Section Traversal.

Variable quote : string -> string.
Variable fmtValue : Value -> string.
Variable mv : Validator.

Local Abbreviation deep := (deepValidateTaglessField quote fmtValue mv).
Local Abbreviation fieldsLoop := (validateStructFieldsLoop quote mv deep).

Lemma validateStruct_eq (value : Value) (fieldName : string) :
  validateStruct quote fmtValue mv value fieldName
  = validateStructBody quote mv (validateStruct quote fmtValue mv) deep value fieldName.
Proof. destruct value; reflexivity. Qed.

Lemma deepValidateTaglessField_eq (value : Value) (field : string) :
  deep value field
  = deepBody quote fmtValue mv (validateStruct quote fmtValue mv) deep value field.
Proof. destruct value; reflexivity. Qed.

(** [deepValidateTaglessField] as the source writes it: a switch on the
    kind, [validateStruct] being called on [value.Interface()]. *)
Lemma deepValidateTaglessField_switch (value : Value) (field : string) :
  deep value field
  = match value with
    | VIface None | VPtr None => ret []
    | VIface (Some _) | VPtr (Some _) | VStruct _ | VTime _ =>
        validateStruct quote fmtValue mv (toInterface value) field
    | VArray l | VSlice l => validateCollectionLoop deep l 0 field []
    | VMap m => validateMapLoop fmtValue deep m field []
    | _ => ret []
    end.
Proof.
  destruct value as [| | | | | | [e |] | [x |] | | | | | |]; reflexivity.
Qed.

Lemma validateStruct_struct (fs : list (string * (StructTag * Value))) (fieldName : string) :
  validateStruct quote fmtValue mv (VStruct fs) fieldName
  = (let* errs := fieldsLoop fs [] in ret (finishStruct mv fieldName errs)).
Proof. reflexivity. Qed.

(** ** A field declared [-] *)

Lemma Field_dash (val : Value) (field : string) (s : State) :
  Field quote mv val field "-" s = (Ok None, s).
Proof. destruct val; reflexivity. Qed.

Lemma fieldsLoop_dash (pre post : list (string * (StructTag * Value)))
    (field : string) (stag : StructTag) (fv : Value) (result : FieldErrors) (s : State) :
  field <> "" -> Get stag (tagName mv) = "-" ->
  fieldsLoop (pre ++ (field, (stag, fv)) :: post) result s
  = fieldsLoop (pre ++ post) result s.
Proof.
  intros Hname Hdash. revert result s.
  induction pre as [| [field' [stag' fv']] pre IH]; intros result s; simpl.
  - destruct field as [| c rest]; [contradiction |].
    destruct (isUpperByte c); simpl; [| reflexivity].
    unfold validateStructField. rewrite Hdash. reflexivity.
  - destruct field' as [| c' rest']; [reflexivity |].
    destruct (isUpperByte c'); simpl; [| apply IH].
    unfold bind. destruct (validateStructField _ _ _ _ _ _ _ s) as [[r | msg] s1];
      [apply IH | reflexivity].
Qed.

(** C3. A field declared [-] leaves no trace in the validation of its
    struct: the outcome, the tag cache and the log of checker invocations
    are those of the struct without the field, whatever the field holds;
    and [Field] with the declaration [-] returns nil on every value,
    without a parse or a checker invocation. *)
Theorem dash_field_skipped (pre post : list (string * (StructTag * Value)))
    (field : string) (stag : StructTag) (fv : Value) (fieldName : string) (s : State) :
  field <> "" -> Get stag (tagName mv) = "-" ->
  validateStruct quote fmtValue mv (VStruct (pre ++ (field, (stag, fv)) :: post)) fieldName s
  = validateStruct quote fmtValue mv (VStruct (pre ++ post)) fieldName s /\
  Struct_ quote fmtValue mv (VStruct (pre ++ (field, (stag, fv)) :: post)) s
  = Struct_ quote fmtValue mv (VStruct (pre ++ post)) s /\
  (forall val name, Field quote mv val name "-" s = (Ok None, s)).
Proof.
  intros Hname Hdash.
  assert (H : forall fn,
             validateStruct quote fmtValue mv (VStruct (pre ++ (field, (stag, fv)) :: post)) fn s
             = validateStruct quote fmtValue mv (VStruct (pre ++ post)) fn s).
  { intros fn. rewrite !validateStruct_struct. unfold bind.
    rewrite (fieldsLoop_dash pre post field stag fv [] s Hname Hdash). reflexivity. }
  split; [apply H |]. split.
  - unfold Struct_, bind. rewrite H. reflexivity.
  - intros val name. apply Field_dash.
Qed.

(** ** Nil pointers and nil interfaces *)

(** C6, as the code has it.  A nil pointer handed to [Struct] or
    [validateStruct], and a nil pointer or nil interface met by the tagless
    traversal, gives no error, no checker invocation and no recursion.  For
    a struct field that holds nil the traversal adds nothing: a field
    without declaration contributes nothing at all, and a declared field
    contributes what its rule chain alone gives on the nil value. *)
Theorem nil_not_traversed (name : string) (s : State) :
  validateStruct quote fmtValue mv (VPtr None) name s = (Ok [], s) /\
  Struct_ quote fmtValue mv (VPtr None) s = (Ok None, s) /\
  (forall v, isNilSlot v -> deep v name s = (Ok [], s)) /\
  (forall stag fv result,
      isNilSlot (derefPtr fv) -> Get stag (tagName mv) = "" ->
      validateStructField quote mv deep name stag fv result s = (Ok result, s)) /\
  (forall stag fv result,
      isNilSlot (derefPtr fv) ->
      validateStructField quote mv deep name stag fv result s
      = validateStructField quote mv (fun _ _ => ret []) name stag fv result s).
Proof.
  split; [reflexivity |]. split; [reflexivity |]. split; [| split].
  - intros v [-> | ->]; reflexivity.
  - intros stag fv result Hnil Htag. unfold validateStructField. rewrite Htag. simpl.
    unfold bind, ret. destruct Hnil as [-> | ->]; simpl; rewrite app_nil_r; reflexivity.
  - intros stag fv result Hnil. unfold validateStructField.
    destruct (String.eqb (Get stag (tagName mv)) "-"); [reflexivity |].
    unfold bind.
    match goal with |- context [match ?m s with _ => _ end] => destruct (m s) as [[r | msg] s1] end;
      [| reflexivity].
    destruct Hnil as [-> | ->]; reflexivity.
Qed.

End Traversal.

Lemma dash_field_skipped_witness :
  validateStruct quoteAscii fmtAny basicValidator
    (VStruct ([("A", (validateTag "required", VInt KInt 0))]
              ++ ("Skip", (validateTag "-",
                           VStruct [("B", (validateTag "required", VString ""))]))
              :: [])) "" emptyState
  = validateStruct quoteAscii fmtAny basicValidator
      (VStruct ([("A", (validateTag "required", VInt KInt 0))] ++ [])) "" emptyState.
Proof.
  apply (dash_field_skipped quoteAscii fmtAny basicValidator
           [("A", (validateTag "required", VInt KInt 0))] []
           "Skip" (validateTag "-")
           (VStruct [("B", (validateTag "required", VString ""))]) "" emptyState).
  - discriminate.
  - reflexivity.
Defined.

Lemma nil_not_traversed_witness :
  validateStructField quoteAscii basicValidator
    (deepValidateTaglessField quoteAscii fmtAny basicValidator)
    "Sub" [] (VPtr (Some (VPtr None))) [] emptyState
  = (Ok [], emptyState).
Proof.
  refine (proj1 (proj2 (proj2 (proj2
            (nil_not_traversed quoteAscii fmtAny basicValidator "Sub" emptyState))))
            [] (VPtr (Some (VPtr None))) [] _ _).
  - left. reflexivity.
  - reflexivity.
Defined.

(** A nil pointer in a field declared [required]: the checker is invoked on
    it and the field fails, as [TestStruct_Required] expects of its
    [Pointer] field.  And [Struct] on the nil interface panics. *)
Lemma nil_pointer_field_is_checked :
  Struct_ quoteAscii fmtAny basicValidator
    (VStruct [("Pointer", (validateTag "required", VPtr None))]) emptyState
  = (Ok (Some (ErrFieldErrors [mkFieldError "Pointer" "Pointer is required"])),
     mkState (<["required" := [requiredTag]]> ∅) [("required", (VPtr None, ""))]) /\
  Struct_ quoteAscii fmtAny basicValidator VInvalid emptyState
  = (Panic "reflect: call of reflect.Value.NumField on zero Value", emptyState).
Proof. split; reflexivity. Qed.

(** Induction on values in which the fields of a struct are taken behind
    their pointers, as [validateStructFields] takes them. *)
Lemma Value_deref_ind (P : Value -> Prop) :
  (forall v, isLeaf v -> P v) ->
  (forall e, P e -> P (VPtr (Some e))) ->
  (forall x, P x -> P (VIface (Some x))) ->
  (forall l, Forall P l -> P (VSlice l)) ->
  (forall l, Forall P l -> P (VArray l)) ->
  (forall m, Forall (fun kv => P (fst kv) /\ P (snd kv)) m -> P (VMap m)) ->
  (forall fs, Forall (fun f => P (derefPtr (snd (snd f)))) fs -> P (VStruct fs)) ->
  forall v, P v.
Proof.
  intros Hleaf HPtr HIface HSlice HArray HMap HStruct v.
  enough (H : P v /\ P (derefPtr v)) by apply H.
  induction v using Value_nested_ind;
    try (split; apply Hleaf; exact I).
  - destruct IHv as [He Hd]. split; [apply HPtr, He | exact Hd].
  - destruct IHv as [Hx _]. split; apply HIface, Hx.
  - assert (Hl : Forall P l) by (eapply Forall_impl; [eassumption | intros ? [? _]; assumption]).
    split; apply HSlice, Hl.
  - assert (Hl : Forall P l) by (eapply Forall_impl; [eassumption | intros ? [? _]; assumption]).
    split; apply HArray, Hl.
  - assert (Hm : Forall (fun kv => P (fst kv) /\ P (snd kv)) m).
    { eapply Forall_impl; [eassumption |]. intros ? [[? _] [? _]]. split; assumption. }
    split; apply HMap, Hm.
  - assert (Hf : Forall (fun f => P (derefPtr (snd (snd f)))) fs).
    { eapply Forall_impl; [eassumption |]. intros ? [_ ?]. assumption. }
    split; apply HStruct, Hf.
Qed.

(** ** The full error path *)

Lemma append_assoc (a b c : string) : (a +:+ b) +:+ c = a +:+ (b +:+ c).
Proof.
  induction a as [| x a IH]; [reflexivity |].
  change (String x ((a +:+ b) +:+ c) = String x (a +:+ (b +:+ c))).
  rewrite IH. reflexivity.
Qed.

Lemma relM_bind {A B} (R : A -> A -> Prop) (R' : B -> B -> Prop)
    (m1 m2 : M A) (k1 k2 : A -> M B) (s : State) :
  relM R (m1 s) (m2 s) ->
  (forall a1 a2 s', R a1 a2 -> relM R' (k1 a1 s') (k2 a2 s')) ->
  relM R' (bind m1 k1 s) (bind m2 k2 s).
Proof.
  unfold relM, bind. intros Hm Hk.
  destruct (m1 s) as [[a1 | msg1] s1], (m2 s) as [[a2 | msg2] s2]; try contradiction.
  - destruct Hm as [HR <-]. apply Hk, HR.
  - exact Hm.
Qed.

Lemma relM_eq_refl {A} (o : Res A * State) : relM eq o o.
Proof. destruct o as [[a | msg] s]; simpl; auto. Qed.

Lemma pathRel_refl (e : FieldError) : pathRel e e.
Proof. split; [reflexivity | exists ""; reflexivity]. Qed.

Lemma pathRel_prefix (name : string) (e1 e2 : FieldError) :
  pathRel e1 e2 -> pathRel (prefixField name e1) e2.
Proof.
  intros [Hd [path Hp]]. split; [exact Hd |].
  exists (name +:+ "." +:+ path). simpl. rewrite Hp, !append_assoc. reflexivity.
Qed.

Section ErrorPath.

Variable quote : string -> string.
Variable fmtValue : Value -> string.
Variable mv : Validator.
Hypothesis default_mode : fullErrorPath mv = false.

Local Abbreviation mvFull := (WithFullErrorPath mv).
Local Abbreviation vsFull := (validateStruct quote fmtValue mvFull).
Local Abbreviation vsDefault := (validateStruct quote fmtValue mv).
Local Abbreviation deepFull := (deepValidateTaglessField quote fmtValue mvFull).
Local Abbreviation deepDefault := (deepValidateTaglessField quote fmtValue mv).
Local Abbreviation modesAgree := (modesAgree quote fmtValue mv).
Local Abbreviation nameUnused := (nameUnused quote fmtValue mv).

Lemma parseLoop_mode (tl : list string) (tags : list Tag) :
  parseLoop quote mvFull tl tags = parseLoop quote mv tl tags.
Proof.
  revert tags. induction tl as [| i rest IH]; intros tags; simpl; [reflexivity |].
  destruct (String.eqb (specName i) ""); [reflexivity |].
  destruct (rules mv !! specName i); [apply IH |].
  destruct (tagAliases mv !! specName i); [apply IH | reflexivity].
Qed.

Lemma Field_mode (val : Value) (field tags : string) :
  Field quote mvFull val field tags = Field quote mv val field tags.
Proof.
  assert (Hs : forall v, singleField quote mvFull v field tags
                         = singleField quote mv v field tags).
  { intros v. unfold singleField, mustParseTags. rewrite parseLoop_mode. reflexivity. }
  induction val using Value_nested_ind; simpl;
    destruct (String.eqb tags "-"); auto.
Qed.

Lemma finishStruct_rel (n1 n2 : string) (e1 e2 : FieldErrors) :
  Forall2 pathRel e1 e2 ->
  Forall2 pathRel (finishStruct mvFull n1 e1) (finishStruct mv n2 e2).
Proof.
  intros H. unfold finishStruct. rewrite default_mode. simpl.
  destruct H as [| x y e1 e2 Hxy H]; simpl; [constructor |].
  destruct (String.eqb n1 "").
  - constructor; assumption.
  - constructor; [apply pathRel_prefix, Hxy |].
    induction H; simpl; constructor; auto using pathRel_prefix.
Qed.

Lemma validateStructField_rel (field : string) (stag : StructTag) (fv : Value)
    (r1 r2 : FieldErrors) (s : State) :
  (forall n1 n2 s', relM (Forall2 pathRel) (deepFull (derefPtr fv) n1 s')
                                             (deepDefault (derefPtr fv) n2 s')) ->
  Forall2 pathRel r1 r2 ->
  relM (Forall2 pathRel)
       (validateStructField quote mvFull deepFull field stag fv r1 s)
       (validateStructField quote mv deepDefault field stag fv r2 s).
Proof.
  intros Hdeep Hr. unfold validateStructField.
  change (tagName (WithFullErrorPath mv)) with (tagName mv).
  destruct (String.eqb (Get stag (tagName mv)) "-"); [simpl; auto |].
  apply (relM_bind (Forall2 pathRel)).
  - destruct (negb (String.eqb (Get stag (tagName mv)) "")); [| simpl; auto].
    rewrite Field_mode. apply (relM_bind eq).
    + apply relM_eq_refl.
    + intros a1 a2 s' <-. destruct a1 as [e |]; simpl; [| auto].
      split; [| reflexivity]. apply List.Forall2_app; [exact Hr |].
      constructor; [apply pathRel_refl | constructor].
  - intros a1 a2 s' Ha. apply (relM_bind (Forall2 pathRel)); [apply Hdeep |].
    intros b1 b2 s'' Hb. simpl. split; [| reflexivity].
    apply List.Forall2_app; assumption.
Qed.

Lemma fieldsLoop_rel (fs : list (string * (StructTag * Value))) :
  Forall (fun f => modesAgree (derefPtr (snd (snd f)))) fs ->
  forall r1 r2 s,
    Forall2 pathRel r1 r2 ->
    relM (Forall2 pathRel)
         (validateStructFieldsLoop quote mvFull deepFull fs r1 s)
         (validateStructFieldsLoop quote mv deepDefault fs r2 s).
Proof.
  induction 1 as [| [field [stag fv]] fs Hf Hfs IH]; intros r1 r2 s Hr; simpl.
  - auto.
  - destruct field as [| c rest]; [simpl; auto |].
    destruct (isUpperByte c); simpl; [| apply IH, Hr].
    apply (relM_bind (Forall2 pathRel)).
    + apply validateStructField_rel; [| exact Hr].
      intros n1 n2 s'. apply Hf.
    + intros a1 a2 s' Ha. apply IH, Ha.
Qed.

Lemma collectionLoop_rel (l : list Value) :
  Forall modesAgree l ->
  forall i n1 n2 r1 r2 s,
    Forall2 pathRel r1 r2 ->
    relM (Forall2 pathRel)
         (validateCollectionLoop deepFull l i n1 r1 s)
         (validateCollectionLoop deepDefault l i n2 r2 s).
Proof.
  induction 1 as [| x l Hx Hl IH]; intros i n1 n2 r1 r2 s Hr; simpl; [auto |].
  apply (relM_bind (Forall2 pathRel)); [apply Hx |].
  intros a1 a2 s' Ha. apply IH, List.Forall2_app; assumption.
Qed.

Lemma mapLoop_rel (m : list (Value * Value)) :
  Forall (fun kv => modesAgree (fst kv) /\ modesAgree (snd kv)) m ->
  forall n1 n2 r1 r2 s,
    Forall2 pathRel r1 r2 ->
    relM (Forall2 pathRel)
         (validateMapLoop fmtValue deepFull m n1 r1 s)
         (validateMapLoop fmtValue deepDefault m n2 r2 s).
Proof.
  induction 1 as [| [k x] m [Hk Hx] Hm IH]; intros n1 n2 r1 r2 s Hr; simpl; [auto |].
  apply (relM_bind (Forall2 pathRel)); [apply Hk |].
  intros a1 a2 s' Ha. apply (relM_bind (Forall2 pathRel)); [apply Hx |].
  intros b1 b2 s'' Hb. apply IH. repeat apply List.Forall2_app; assumption.
Qed.

Lemma modesAgree_all (v : Value) : modesAgree v.
Proof.
  induction v using Value_deref_ind.
  - destruct v as [| | | | | | [e |] | [x |] | | | | | |];
      try contradiction; intros n1 n2 st; split; simpl; auto.
  - assert (Hvs : forall n1 n2 s,
               relM (Forall2 pathRel) (vsFull (VPtr (Some v)) n1 s)
                                      (vsDefault (VPtr (Some v)) n2 s)).
    { intros n1 n2 s. apply (relM_bind (Forall2 pathRel)); [apply IHv |].
      intros a1 a2 s' Ha. simpl. split; [apply finishStruct_rel, Ha | reflexivity]. }
    intros n1 n2 s. split; apply Hvs.
  - intros n1 n2 s. split; apply IHv.
  - intros n1 n2 s. split; [simpl; auto |].
    apply collectionLoop_rel; [assumption | constructor].
  - intros n1 n2 s. split; [simpl; auto |].
    apply collectionLoop_rel; [assumption | constructor].
  - intros n1 n2 s. split; [simpl; auto |].
    apply mapLoop_rel; [assumption | constructor].
  - assert (Hvs : forall n1 n2 s,
               relM (Forall2 pathRel) (vsFull (VStruct fs) n1 s)
                                      (vsDefault (VStruct fs) n2 s)).
    { intros n1 n2 s. apply (relM_bind (Forall2 pathRel)).
      - apply fieldsLoop_rel; [assumption | constructor].
      - intros a1 a2 s' Ha. simpl. split; [apply finishStruct_rel, Ha | reflexivity]. }
    intros n1 n2 s. split; apply Hvs.
Qed.

Lemma finishStruct_default (n : string) (errs : FieldErrors) :
  finishStruct mv n errs = errs.
Proof. unfold finishStruct. rewrite default_mode. destruct errs; reflexivity. Qed.

Lemma collectionLoop_names (l : list Value) :
  Forall nameUnused l ->
  forall i n1 n2 r s,
    validateCollectionLoop deepDefault l i n1 r s
    = validateCollectionLoop deepDefault l i n2 r s.
Proof.
  induction 1 as [| x l Hx Hl IH]; intros i n1 n2 r s; simpl; [reflexivity |].
  unfold bind. rewrite (proj2 (Hx (elemField n1 i) (elemField n2 i) s)).
  destruct (deepDefault x (elemField n2 i) s) as [[a | msg] s']; [apply IH | reflexivity].
Qed.

Lemma mapLoop_names (m : list (Value * Value)) :
  Forall (fun kv => nameUnused (fst kv) /\ nameUnused (snd kv)) m ->
  forall n1 n2 r s,
    validateMapLoop fmtValue deepDefault m n1 r s
    = validateMapLoop fmtValue deepDefault m n2 r s.
Proof.
  induction 1 as [| [k x] m [Hk Hx] Hm IH]; intros n1 n2 r s; simpl in *; [reflexivity |].
  unfold bind. rewrite (proj2 (Hk (keyField fmtValue n1 k) (keyField fmtValue n2 k) s)).
  destruct (deepDefault k (keyField fmtValue n2 k) s) as [[a | msg] s']; [| reflexivity].
  rewrite (proj2 (Hx (valueField fmtValue n1 k) (valueField fmtValue n2 k) s')).
  destruct (deepDefault x (valueField fmtValue n2 k) s') as [[b | msg] s'']; [apply IH | reflexivity].
Qed.

Lemma nameUnused_all (v : Value) : nameUnused v.
Proof.
  induction v using Value_nested_ind;
    try (intros n1 n2 st; split; reflexivity).
  - assert (Hvs : forall n1 n2 s, vsDefault (VPtr (Some v)) n1 s = vsDefault (VPtr (Some v)) n2 s).
    { intros n1 n2 s. simpl. unfold bind. rewrite (proj1 (IHv n1 n2 s)).
      destruct (vsDefault v n2 s) as [[a | msg] s']; [| reflexivity].
      rewrite !finishStruct_default. reflexivity. }
    intros n1 n2 s. split; apply Hvs.
  - intros n1 n2 s. split; apply IHv.
  - intros n1 n2 s. split; [reflexivity |]. apply collectionLoop_names. assumption.
  - intros n1 n2 s. split; [reflexivity |]. apply collectionLoop_names. assumption.
  - intros n1 n2 s. split; [reflexivity |]. apply mapLoop_names. assumption.
  - assert (Hvs : forall n1 n2 s, vsDefault (VStruct fs) n1 s = vsDefault (VStruct fs) n2 s).
    { intros n1 n2 s. simpl. unfold bind.
      destruct (validateStructFieldsLoop quote mv deepDefault fs [] s) as [[a | msg] s'];
        [| reflexivity].
      rewrite !finishStruct_default. reflexivity. }
    intros n1 n2 s. split; apply Hvs.
Qed.

Lemma finishStruct_full (n : string) (errs : FieldErrors) :
  n <> "" -> finishStruct mvFull n errs = map (prefixField n) errs.
Proof.
  intros Hn. apply String.eqb_neq in Hn. unfold finishStruct. simpl. rewrite Hn.
  destruct errs; reflexivity.
Qed.

Lemma underPath_prefix (n : string) (errs : FieldErrors) :
  Forall (underPath n) (map (prefixField n) errs).
Proof.
  induction errs as [| e errs IH]; simpl; constructor; [| exact IH].
  exists (Field_ e). reflexivity.
Qed.

Lemma full_path_prefixed (v : Value) (n : string) :
  n <> "" ->
  forall s errs s', vsFull v n s = (Ok errs, s') -> Forall (underPath n) errs.
Proof.
  intros Hn. induction v using Value_nested_ind; intros st errs st' Hrun;
    try discriminate Hrun.
  - inversion Hrun. constructor.
  - simpl in Hrun. unfold bind in Hrun.
    destruct (vsFull v n st) as [[a | msg] s1]; [| discriminate Hrun].
    inversion Hrun; subst. rewrite finishStruct_full by exact Hn. apply underPath_prefix.
  - apply (IHv st errs st' Hrun).
  - simpl in Hrun. unfold bind in Hrun.
    destruct (validateStructFieldsLoop quote mvFull deepFull fs [] st) as [[a | msg] s1];
      [| discriminate Hrun].
    inversion Hrun; subst. rewrite finishStruct_full by exact Hn. apply underPath_prefix.
  - inversion Hrun. constructor.
Qed.

Lemma full_path_struct (fs : list (string * (StructTag * Value))) (n : string) :
  n <> "" ->
  forall s errs0 s',
    vsFull (VStruct fs) "" s = (Ok errs0, s') ->
    vsFull (VStruct fs) n s = (Ok (map (prefixField n) errs0), s').
Proof.
  intros Hn s errs0 s' H. simpl in *. unfold bind in *.
  destruct (validateStructFieldsLoop quote mvFull deepFull fs [] s) as [[a | msg] s1];
    [| discriminate H].
  inversion H; subst. unfold ret. rewrite finishStruct_full by exact Hn.
  unfold finishStruct. simpl. destruct a; reflexivity.
Qed.


End ErrorPath.

(** [TestStruct_MultipleErrors] and [TestStruct_WithoutFullErrorPath]. *)
Example complexStruct_full_path :
  fieldsOf (Struct_ quoteAscii fmtAny (WithFullErrorPath basicValidator)
              (VPtr (Some complexStruct)) emptyState)
  = ["A"; "Sub.A"; "Sub.C"; "Sub.D"; "Sub.Sub2.A"].
Proof. reflexivity. Qed.

Example complexStruct_default :
  fieldsOf (Struct_ quoteAscii fmtAny basicValidator (VPtr (Some complexStruct)) emptyState)
  = ["A"; "A"; "C"; "D"; "A"].
Proof. reflexivity. Qed.

Example complexStruct_descriptions :
  descriptionsOf (Struct_ quoteAscii fmtAny (WithFullErrorPath basicValidator)
                    (VPtr (Some complexStruct)) emptyState)
  = descriptionsOf (Struct_ quoteAscii fmtAny basicValidator
                      (VPtr (Some complexStruct)) emptyState).
Proof. reflexivity. Qed.


(** ** Unknown tags *)

Section UnknownTag.

Variable quote : string -> string.
Variable fmtValue : Value -> string.
Variable mv : Validator.

Local Abbreviation known := (knownName mv).

Lemma known_dec (name : string) : {known name} + {~ known name}.
Proof.
  unfold knownName. destruct (string_dec name "") as [-> | Hne].
  - right. intros [H _]. apply H. reflexivity.
  - destruct (rules mv !! name) as [r |] eqn:Hr.
    + left. split; [exact Hne | left; eexists; reflexivity].
    + destruct (tagAliases mv !! name) as [a |] eqn:Ha.
      * left. split; [exact Hne | right; eexists; reflexivity].
      * right. intros [_ [[x Hx] | [x Hx]]]; discriminate.
Qed.

Lemma parseLoop_unknown (pre post : list string) (i : string) (tags : list Tag) :
  Forall (fun j => known (specName j)) pre ->
  ~ known (specName i) ->
  parseLoop quote mv (pre ++ i :: post) tags = Panic (unknownTag quote mv (specName i)).
Proof.
  intros Hpre Hi. revert tags.
  induction Hpre as [| j pre [Hne Hj] Hpre IH]; intros tags; simpl.
  - destruct (String.eqb_spec (specName i) "") as [He | He]; [reflexivity |].
    destruct (rules mv !! specName i) as [r |] eqn:Hr.
    { exfalso. apply Hi. split; [exact He | left; eexists; exact Hr]. }
    destruct (tagAliases mv !! specName i) as [a |] eqn:Ha; [| reflexivity].
    exfalso. apply Hi. split; [exact He | right; eexists; exact Ha].
  - destruct (String.eqb_spec (specName j) "") as [He | He]; [contradiction |].
    destruct (rules mv !! specName j) as [r |]; [apply IH |].
    destruct (tagAliases mv !! specName j) as [a |]; [apply IH |].
    destruct Hj as [[x Hx] | [x Hx]]; discriminate.
Qed.

Lemma first_unknown (tl : list string) :
  Exists (fun i => ~ known (specName i)) tl ->
  exists pre i post,
    tl = pre ++ i :: post /\ Forall (fun j => known (specName j)) pre /\ ~ known (specName i).
Proof.
  induction tl as [| j tl IH]; intros H; [inversion H |].
  destruct (known_dec (specName j)) as [Hk | Hk].
  - inversion H as [? ? Hj | ? ? Htl]; subst; [contradiction |].
    destruct (IH Htl) as (pre & i & post & -> & Hpre & Hi).
    exists (j :: pre), i, post. split; [reflexivity |]. split; [constructor; assumption | exact Hi].
  - exists [], j, tl. split; [reflexivity |]. split; [constructor | exact Hk].
Qed.

Lemma mustParseTags_hit (t : string) (s : State) (val : list Tag) :
  tagCache s !! t = Some val -> mustParseTags quote mv t s = (Ok val, s).
Proof. intros H. unfold mustParseTags. rewrite H. reflexivity. Qed.


End UnknownTag.



(** ** The index suffix of [validateCollection] *)

(** For an index below 128 the suffix holds the one byte whose code is the
    index, not its decimal numeral. *)
Lemma elemField_low (field : string) (i : nat) :
  (i < 128)%nat ->
  elemField field i = field +:+ "[" +:+ String (byteOf (Z.of_nat i)) EmptyString +:+ "]".
Proof.
  intros Hi. unfold elemField, runeOfInt.
  assert (Hr : (Z.of_nat i + 2147483648) mod 4294967296 - 2147483648 = Z.of_nat i).
  { rewrite Z.mod_small by lia. lia. }
  rewrite Hr. unfold stringOfRune.
  destruct (Z.ltb_spec (Z.of_nat i) 0) as [H0 | H0]; [lia |].
  destruct (Z.ltb_spec 1114111 (Z.of_nat i)) as [H1 | H1]; [lia |].
  destruct (Z.leb_spec 55296 (Z.of_nat i)) as [H2 | H2]; [lia |].
  destruct (Z.ltb_spec (Z.of_nat i) 128) as [H3 | H3]; [| lia].
  reflexivity.
Qed.

(** C4, on the code.  [validateCollection] renders the index with
    [string(rune(i))]: element 0 is handed down as [F], an opening bracket,
    the byte 0 and a closing bracket, and element 12 with the byte 12,
    neither with its decimal numeral; with the full error path the failure
    of the first element of [Items] is reported under that name. *)
Theorem collection_index_is_a_rune :
  elemField "F" 0 = "F[" +:+ String (byteOf 0) "]" /\
  elemField "F" 0 <> "F[0]" /\
  elemField "F" 12 = "F[" +:+ String (byteOf 12) "]" /\
  elemField "F" 12 <> "F[12]" /\
  fieldsOf (Struct_ quoteAscii fmtAny (WithFullErrorPath basicValidator) itemsStruct emptyState)
  = ["Items[" +:+ String (byteOf 0) "].A"] /\
  fieldsOf (Struct_ quoteAscii fmtAny (WithFullErrorPath basicValidator) itemsStruct emptyState)
  <> ["Items[0].A"].
Proof. repeat split; try reflexivity; discriminate. Qed.

(** ** [mindate=now] and [maxdate=now] *)

(** Whenever the clock is past midnight, today's date fails [mindate=now]:
    the bound is the instant [now], not the day of [now]. *)
Lemma MinDate_now_today (now : Z) (str : string) (t : Z) :
  str <> "" -> time_Parse str = Some t -> t = midnightOf now -> now <> t ->
  MinDate now (VString str) "now" = Ok false.
Proof.
  intros Hne Hp Ht Hnow. unfold MinDate. apply String.eqb_neq in Hne.
  rewrite Hne, Hp. simpl. f_equal.
  assert (Hle : t <= now).
  { subst t. unfold midnightOf, nanosPerDay.
    pose proof (Z.mul_div_le now 86400000000000 ltac:(lia)). lia. }
  destruct (Z.ltb_spec now t); [lia |].
  destruct (Z.eqb_spec t now); [congruence | reflexivity].
Qed.

(** C5, on the code.  At noon UTC of 2024-03-15 the date 2024-03-15 is the
    day of [now], yet it fails [mindate=now], with a message that names
    that very date as the minimum; it passes [maxdate=now], and it passes
    [mindate] with the date written out, where [parseDate] cuts the bound
    to midnight. *)
Theorem mindate_now_rejects_today :
  time_Parse "2024-03-15" = Some (midnightOf noon20240315) /\
  MinDate noon20240315 (VString "2024-03-15") "now" = Ok false /\
  MaxDate noon20240315 (VString "2024-03-15") "now" = Ok true /\
  MinDate noon20240315 (VString "2024-03-15") "2024-03-15" = Ok true /\
  parseDate noon20240315 "now" = Ok noon20240315 /\
  parseDate noon20240315 "2024-03-15" = Ok (midnightOf noon20240315) /\
  fst (Field quoteAscii (AddRule NewValidator (mindateRule noon20240315))
         (VString "2024-03-15") "Future" "mindate=now" emptyState)
  = Ok (Some (ErrFieldError (mkFieldError "Future" "Future minimum date is 2024-03-15"))).
Proof. repeat split; reflexivity. Qed.

(** * Further properties *)

(** ** The parser and its cache *)

Lemma mustParseTags_stores (quote : string -> string) (mv mv' : Validator)
    (t : string) (s s' : State) (tags : list Tag) :
  mustParseTags quote mv t s = (Ok tags, s') ->
  tagCache s' !! t = Some tags /\
  mustParseTags quote mv' t s' = (Ok tags, s').
Proof.
  intros H. unfold mustParseTags in H.
  assert (Hc : tagCache s' !! t = Some tags).
  { destruct (tagCache s !! t) as [val |] eqn:Hhit.
    - inversion H; subst. exact Hhit.
    - destruct (parseLoop quote mv (splitUnescapedComma t) []) as [tl | msg]; [| discriminate H].
      inversion H; subst. simpl. apply lookup_insert_eq. }
  split; [exact Hc |]. unfold mustParseTags. rewrite Hc. reflexivity.
Qed.

(** X1. A declaration that was parsed is served from the cache from then
    on: the same tags come back, for whichever validator asks, and the
    state stays as it is. *)
Theorem mustParseTags_memoized (quote : string -> string) (mv mv' : Validator)
    (t : string) (s s' : State) (tags : list Tag) :
  mustParseTags quote mv t s = (Ok tags, s') ->
  tagCache s' !! t = Some tags /\
  mustParseTags quote mv' t s' = (Ok tags, s').
Proof. apply mustParseTags_stores. Qed.

Lemma mustParseTags_memoized_witness :
  mustParseTags quoteAscii NewValidator "optional,required"
    (mkState (<["optional,required" := [optionalTag; requiredTag]]> ∅) [])
  = (Ok [optionalTag; requiredTag],
     mkState (<["optional,required" := [optionalTag; requiredTag]]> ∅) []).
Proof.
  apply (mustParseTags_memoized quoteAscii basicValidator NewValidator
           "optional,required" emptyState).
  reflexivity.
Defined.

Lemma parseLoop_resolved (quote : string -> string) (mv : Validator)
    (tl : list string) (acc tags : list Tag) :
  resolvePieces mv tl = Some tags ->
  parseLoop quote mv tl acc = Ok (acc ++ tags).
Proof.
  revert acc tags. induction tl as [| i rest IH]; intros acc tags H; simpl in *.
  - inversion H. rewrite app_nil_r. reflexivity.
  - unfold resolvePiece in H.
    destruct (String.eqb (specName i) ""); [discriminate H |].
    destruct (rules mv !! specName i) as [rule |].
    + destruct (resolvePieces mv rest) as [tags' |]; [| discriminate H].
      inversion H; subst. rewrite (IH _ tags' eq_refl), <- app_assoc. reflexivity.
    + destruct (tagAliases mv !! specName i) as [val |]; [| discriminate H].
      destruct (resolvePieces mv rest) as [tags' |]; [| discriminate H].
      inversion H; subst. rewrite (IH _ tags' eq_refl), <- app_assoc. reflexivity.
Qed.

Lemma mustParseTags_miss (quote : string -> string) (mv : Validator)
    (t : string) (s : State) (tags : list Tag) :
  tagCache s !! t = None ->
  resolvePieces mv (splitUnescapedComma t) = Some tags ->
  mustParseTags quote mv t s
  = (Ok tags, mkState (<[t := tags]> (tagCache s)) (calls s)).
Proof.
  intros Hmiss Hres. unfold mustParseTags.
  rewrite Hmiss, (parseLoop_resolved quote mv _ [] tags Hres). reflexivity.
Qed.

(** X2. On a declaration that is not cached and whose pieces all resolve,
    [mustParseTags] returns the tags of the pieces in the order of the
    pieces, a rule giving one tag with the trimmed name and parameter and
    an alias the tags stored for it, a rule going before an alias of the
    same name; it stores them under the declaration, touches no other
    entry and invokes no checker. *)
Theorem mustParseTags_resolves (quote : string -> string) (mv : Validator)
    (t : string) (s : State) (tags : list Tag) :
  tagCache s !! t = None ->
  resolvePieces mv (splitUnescapedComma t) = Some tags ->
  mustParseTags quote mv t s
  = (Ok tags, mkState (<[t := tags]> (tagCache s)) (calls s)).
Proof. apply mustParseTags_miss. Qed.

Lemma mustParseTags_resolves_witness :
  mustParseTags quoteAscii basicValidator " optional , required" emptyState
  = (Ok [optionalTag; requiredTag],
     mkState (<[" optional , required" := [optionalTag; requiredTag]]> ∅) []).
Proof.
  apply (mustParseTags_resolves quoteAscii basicValidator " optional , required" emptyState);
    reflexivity.
Defined.
(** ** Splitting a declaration *)

Lemma get_hasChar (k : nat) (s : string) (c : ascii) :
  String.get k s = Some c -> hasChar c s = true.
Proof.
  revert k. induction s as [| c' r IH]; intros k H; [destruct k; discriminate H |].
  destruct k as [| k]; simpl in *.
  - inversion H; subst. rewrite Ascii.eqb_refl. reflexivity.
  - rewrite (IH k H). apply orb_true_r.
Qed.

Lemma evenRunComma_get (n : nat) (s : string) (k : nat) :
  (String.length s <= n)%nat -> evenRunComma s = Some k ->
  String.get (k - 1) s = Some comma.
Proof.
  revert s k. induction n as [| n IH]; intros s k Hlen H.
  - destruct s; [discriminate H | simpl in Hlen; lia].
  - destruct s as [| c r]; [discriminate H |]. simpl in H.
    destruct (Ascii.eqb_spec c comma) as [-> | Hc]; [inversion H; reflexivity |].
    destruct (Ascii.eqb c backslash); [| discriminate H].
    destruct r as [| c' r']; [discriminate H |].
    destruct (Ascii.eqb c' backslash); [| discriminate H].
    destruct (evenRunComma r') as [m |] eqn:Hm; [| discriminate H].
    inversion H; subst. simpl in Hlen.
    pose proof (evenRunComma_bound (String.length r') r' m ltac:(lia) Hm) as Hb.
    pose proof (IH r' m ltac:(lia) Hm) as Hg.
    replace (S (S m) - 1)%nat with (S (S (m - 1))) by lia. exact Hg.
Qed.

Lemma sepPattern_matchAt_get (atStart : bool) (s : string) (k : nat) :
  sepPattern_matchAt atStart s = Some k -> String.get (k - 1) s = Some comma.
Proof.
  unfold sepPattern_matchAt. intros H.
  destruct (if atStart then evenRunComma s else None) as [m |] eqn:Hm.
  - inversion H; subst. destruct atStart; [| discriminate Hm].
    apply (evenRunComma_get (String.length s)); [lia | exact Hm].
  - destruct s as [| c r]; [discriminate H |].
    destruct (Ascii.eqb c backslash); [discriminate H |].
    destruct (evenRunComma r) as [m |] eqn:Hr; [| discriminate H].
    inversion H; subst.
    pose proof (evenRunComma_bound (String.length r) r m ltac:(lia) Hr) as Hb.
    pose proof (evenRunComma_get (String.length r) r m ltac:(lia) Hr) as Hg.
    replace (S m - 1)%nat with (S (m - 1)) by lia. exact Hg.
Qed.

Lemma sepPattern_find_get (pos : nat) (s : string) (b e : nat) :
  sepPattern_find pos s = Some (b, e) -> String.get (e - 1 - pos) s = Some comma.
Proof.
  revert pos. induction s as [| c r IH]; intros pos H.
  - apply sepPattern_find_bound in H. simpl in H. lia.
  - pose proof (sepPattern_find_bound _ _ _ _ H) as Hb. simpl in H.
    destruct (sepPattern_matchAt (pos =? 0)%nat (String c r)) as [k |] eqn:Hk.
    + assert (He : e = (pos + k)%nat) by (inversion H; reflexivity).
      apply sepPattern_matchAt_get in Hk.
      replace (e - 1 - pos)%nat with (k - 1)%nat by lia. exact Hk.
    + pose proof (sepPattern_find_bound _ _ _ _ H) as Hb'.
      apply IH in H.
      replace (e - 1 - pos)%nat with (S (e - 1 - S pos)) by lia. exact H.
Qed.

Lemma string_split_at (k : nat) (s : string) (c : ascii) :
  String.get k s = Some c ->
  s = String.substring 0 k s +:+ String c (dropString (S k) s).
Proof.
  revert s. induction k as [| k IH]; intros s H.
  - destruct s as [| c' r]; [discriminate H |]. simpl in H. inversion H; subst.
    destruct r; reflexivity.
  - destruct s as [| c' r]; [discriminate H |]. simpl in H.
    change (String c' r = String c' (String.substring 0 k r +:+ String c (dropString (S k) r))).
    rewrite <- (IH r H). reflexivity.
Qed.

Lemma substring_dropString (pos k : nat) (str : string) :
  String.substring pos k str = String.substring 0 k (dropString pos str).
Proof.
  revert str. induction pos as [| pos IH]; intros str.
  - destruct str; reflexivity.
  - destruct str as [| c r]; [destruct k; reflexivity |]. simpl. apply IH.
Qed.

Lemma dropString_add (a b : nat) (s : string) :
  dropString a (dropString b s) = dropString (b + a) s.
Proof.
  revert s. induction b as [| b IH]; intros s.
  - destruct s; reflexivity.
  - destruct s as [| c r]; [destruct a; reflexivity |]. simpl. apply IH.
Qed.

Lemma substring_full (s : string) : String.substring 0 (String.length s) s = s.
Proof. induction s as [| c r IH]; simpl; [reflexivity | rewrite IH; reflexivity]. Qed.

Lemma slice_to_end (str : string) (pos : nat) :
  (pos <= String.length str)%nat ->
  slice str pos (String.length str) = dropString pos str.
Proof.
  intros Hpos. unfold slice. rewrite substring_dropString.
  rewrite <- (length_dropString pos str Hpos). apply substring_full.
Qed.

Lemma splitLoop_nonempty (str : string) (indexes : list (nat * nat)) (last : nat) :
  splitLoop str indexes last <> [].
Proof. destruct indexes; discriminate. Qed.

Lemma concat_cons (sep x : string) (l : list string) :
  l <> [] -> String.concat sep (x :: l) = x +:+ sep +:+ String.concat sep l.
Proof. destruct l; [contradiction | reflexivity]. Qed.

Lemma rejoin_from (str : string) (fuel pos : nat) :
  (pos <= String.length str)%nat ->
  (String.length (dropString pos str) < fuel)%nat ->
  String.concat "," (splitLoop str (sepPattern_findAll fuel pos (dropString pos str)) pos)
  = dropString pos str.
Proof.
  revert pos. induction fuel as [| fuel IH]; intros pos Hpos Hfuel; [lia |].
  simpl. destruct (sepPattern_find pos (dropString pos str)) as [[b e] |] eqn:Hf.
  - pose proof (sepPattern_find_bound _ _ _ _ Hf) as Hb.
    pose proof (sepPattern_find_get _ _ _ _ Hf) as Hg.
    rewrite (length_dropString pos str Hpos) in Hb, Hfuel.
    rewrite dropString_add. replace (pos + (e - pos))%nat with e by lia.
    simpl splitLoop. rewrite concat_cons by apply splitLoop_nonempty.
    rewrite IH by (try rewrite length_dropString; lia).
    unfold slice. rewrite substring_dropString.
    symmetry. etransitivity; [exact (string_split_at _ _ _ Hg) |].
    rewrite dropString_add. replace (pos + S (e - 1 - pos))%nat with e by lia.
    reflexivity.
  - simpl. apply slice_to_end, Hpos.
Qed.

(** X3. Splitting a declaration loses nothing: the pieces, joined by
    commas, are the declaration. *)
Theorem splitUnescapedComma_rejoin (str : string) :
  String.concat "," (splitUnescapedComma str) = str.
Proof.
  unfold splitUnescapedComma, sepPattern_FindAllStringIndex.
  apply (rejoin_from str (S (String.length str)) 0); simpl; lia.
Qed.

Lemma sepPattern_find_none (pos : nat) (s : string) :
  hasChar comma s = false -> sepPattern_find pos s = None.
Proof.
  intros Hno. destruct (sepPattern_find pos s) as [[b e] |] eqn:Hf; [| reflexivity].
  apply sepPattern_find_get, get_hasChar in Hf. congruence.
Qed.

Lemma splitUnescapedComma_no_comma (s : string) :
  hasChar comma s = false -> splitUnescapedComma s = [s].
Proof.
  intros Hno. unfold splitUnescapedComma, sepPattern_FindAllStringIndex. simpl.
  rewrite (sepPattern_find_none 0 s Hno). simpl. f_equal.
  apply (slice_to_end s 0). lia.
Qed.

Lemma unescapeComma_no_comma (n : nat) (s : string) :
  (String.length s <= n)%nat -> hasChar comma s = false -> unescapeComma s = s.
Proof.
  revert s. induction n as [| n IH]; intros s Hlen Hno.
  - destruct s; [reflexivity | simpl in Hlen; lia].
  - destruct s as [| c r]; [reflexivity |]. simpl in *.
    apply orb_false_iff in Hno. destruct Hno as [Hc Hr].
    destruct r as [| c' r']; [reflexivity |].
    simpl in Hr. apply orb_false_iff in Hr. destruct Hr as [Hc' Hr'].
    simpl in Hlen. rewrite Hc', andb_false_r.
    f_equal. apply IH; [simpl; lia |]. simpl. rewrite Hc', Hr'. reflexivity.
Qed.

Lemma splitEq_no_equals (s : string) :
  hasChar equals s = false -> splitEq s = (s, None).
Proof.
  induction s as [| c r IH]; intros Hno; [reflexivity |]. simpl in *.
  apply orb_false_iff in Hno. destruct Hno as [Hc Hr].
  rewrite Hc, (IH Hr). reflexivity.
Qed.

(** ** Trimming *)

Lemma trimLeft_first (s : string) : firstChar (trimLeft s) <> Some space.
Proof.
  induction s as [| c r IH]; simpl; [discriminate |].
  destruct (Ascii.eqb_spec c space) as [-> | Hc]; [exact IH |].
  simpl. congruence.
Qed.

Lemma trimRight_first (s : string) :
  firstChar s <> Some space -> firstChar (trimRight s) <> Some space.
Proof.
  destruct s as [| c r]; simpl; [discriminate |]. intros Hc.
  destruct (trimRight r); simpl; [| exact Hc].
  destruct (Ascii.eqb_spec c space) as [-> | Hne]; [congruence | exact Hc].
Qed.

Lemma trimRight_last (s : string) : lastChar (trimRight s) <> Some space.
Proof.
  induction s as [| c r IH]; simpl; [discriminate |].
  destruct (trimRight r) as [| c' r'] eqn:Hr.
  - destruct (Ascii.eqb_spec c space) as [-> | Hne]; simpl; congruence.
  - exact IH.
Qed.

Lemma trimLeft_id (s : string) : firstChar s <> Some space -> trimLeft s = s.
Proof.
  destruct s as [| c r]; simpl; [reflexivity |]. intros Hc.
  destruct (Ascii.eqb_spec c space) as [-> | Hne]; [congruence | reflexivity].
Qed.

Lemma trimRight_id (s : string) : lastChar s <> Some space -> trimRight s = s.
Proof.
  induction s as [| c r IH]; [reflexivity |]. intros Hl.
  destruct r as [| c' r'].
  - simpl in *. destruct (Ascii.eqb_spec c space) as [-> | Hne]; [congruence | reflexivity].
  - change (lastChar (String c' r') <> Some space) in Hl.
    change (match trimRight (String c' r') with
            | EmptyString => if Ascii.eqb c space then EmptyString else String c EmptyString
            | String a b => String c (String a b)
            end = String c (String c' r')).
    rewrite (IH Hl). reflexivity.
Qed.

(** X4. A trimmed name has no space at either end, and a name without one
    is left as it is; so a rule or an alias registered under a name with a
    space in front or behind, or under the empty name, is never reached by
    a declaration. *)
Theorem Trim_edges (s : string) :
  firstChar (Trim s) <> Some space /\
  lastChar (Trim s) <> Some space /\
  (firstChar s <> Some space -> lastChar s <> Some space -> Trim s = s) /\
  (forall (mv : Validator) (i : string),
      resolvePiece mv i <> None ->
      specName i <> "" /\
      firstChar (specName i) <> Some space /\ lastChar (specName i) <> Some space).
Proof.
  assert (Hf : forall x, firstChar (Trim x) <> Some space).
  { intros x. apply trimRight_first, trimLeft_first. }
  assert (Hl : forall x, lastChar (Trim x) <> Some space).
  { intros x. apply trimRight_last. }
  split; [apply Hf |]. split; [apply Hl |]. split.
  - intros H1 H2. unfold Trim. rewrite (trimLeft_id s H1). apply trimRight_id, H2.
  - intros mv i Hres. split; [| split; [apply Hf | apply Hl]].
    unfold resolvePiece in Hres.
    destruct (String.eqb_spec (specName i) ""); [contradiction | assumption].
Qed.

Lemma Trim_edges_witness : Trim "  a b " = "a b" /\ Trim "a b" = "a b".
Proof.
  split; [reflexivity |].
  apply (Trim_edges "a b"); discriminate.
Defined.

Lemma specName_plain (n : string) : plainName n -> specName n = n /\ specParam n = "".
Proof.
  intros (Hne & Hc & He & Hf & Hl). unfold specName, specParam.
  rewrite (unescapeComma_no_comma (String.length n) n (le_n _) Hc).
  rewrite (splitEq_no_equals n He). simpl.
  split; [| reflexivity]. unfold Trim. rewrite (trimLeft_id n Hf). apply trimRight_id, Hl.
Qed.

(** ** Aliases *)

Lemma evalTags_uniform (tags : list Tag) (v : Value) (field : string) :
  exists r cs, forall s, evalTags tags v field s = (r, logCalls s cs).
Proof.
  induction tags as [| t rest (r & cs & IH)]; simpl.
  - exists (Ok None), []. intros s. rewrite logCalls_nil. reflexivity.
  - destruct (Checker (Rule t) v (Param t)) as [ok | msg] eqn:Hc.
    + destruct ok.
      * exists r, (callOf v t :: cs). intros s. unfold bind.
        rewrite (callChecker_Ok t v true s Hc), IH, logCalls_app. reflexivity.
      * exists (Ok (failureOf t v field)), [callOf v t]. intros s. unfold bind.
        rewrite (callChecker_Ok t v false s Hc). unfold failureOf.
        destruct (ErrorFunc (Rule t)); reflexivity.
    + exists (Panic msg), [callOf v t]. intros s. unfold bind, callChecker.
      rewrite Hc. reflexivity.
Qed.

(** X5. An alias stands for its declaration.  After [AddAlias] has stored
    a plain name that is no rule, the name parses (when not yet cached) to
    the very tags the declaration was parsed to, and [Field] gives the same
    result and invokes the same checkers with the alias as with the
    declaration written out. *)
Theorem alias_stands_for_declaration (quote : string -> string) (mv mv' : Validator)
    (alias decl : string) (s s1 : State) :
  plainName alias -> alias <> "-" -> decl <> "-" ->
  rules mv !! alias = None ->
  AddAlias quote mv alias decl s = (Ok mv', s1) ->
  tagCache s1 !! alias = None ->
  exists tags,
    tagCache s1 !! decl = Some tags /\
    mustParseTags quote mv' alias s1
    = (Ok tags, mkState (<[alias := tags]> (tagCache s1)) (calls s1)) /\
    forall val field,
      fst (Field quote mv' val field alias s1) = fst (Field quote mv' val field decl s1) /\
      calls (snd (Field quote mv' val field alias s1))
      = calls (snd (Field quote mv' val field decl s1)).
Proof.
  intros Hplain Halias Hdecl Hrule Hadd Hmiss.
  unfold AddAlias, bind in Hadd.
  destruct (mustParseTags quote mv decl s) as [[tags | msg] s0] eqn:Hparse; [| discriminate Hadd].
  unfold ret in Hadd. inversion Hadd; subst. clear Hadd.
  set (mv' := mkValidator (tagName mv) (rules mv) (fullErrorPath mv)
                          (<[alias := tags]> (tagAliases mv))).
  destruct (mustParseTags_stores quote mv mv' decl s s1 tags Hparse) as [Hc Hhit].
  assert (Hal : mustParseTags quote mv' alias s1
                = (Ok tags, mkState (<[alias := tags]> (tagCache s1)) (calls s1))).
  { apply mustParseTags_miss; [exact Hmiss |].
    rewrite (splitUnescapedComma_no_comma alias) by apply Hplain. simpl.
    unfold resolvePiece. destruct (specName_plain alias Hplain) as [-> _].
    assert (Hne : alias <> "") by apply Hplain.
    destruct (String.eqb_spec alias ""); [contradiction |].
    simpl. rewrite Hrule, lookup_insert_eq, app_nil_r. reflexivity. }
  exists tags. split; [exact Hc |]. split; [exact Hal |].
  intros val field.
  rewrite (Field_settle quote mv' val field alias Halias),
          (Field_settle quote mv' val field decl Hdecl).
  unfold singleField, bind. rewrite Hal, Hhit.
  destruct (evalTags_uniform tags (settle val) field) as (r & cs & Hu).
  rewrite !Hu. split; reflexivity.
Qed.

Lemma alias_stands_for_declaration_witness :
  exists tags,
    tagCache (mkState (<["optional,required" := [optionalTag; requiredTag]]> ∅) [])
      !! "optional,required" = Some tags /\
    mustParseTags quoteAscii
      (mkValidator "validate" (rules basicValidator) false
                   (<["maybe" := [optionalTag; requiredTag]]> ∅))
      "maybe" (mkState (<["optional,required" := [optionalTag; requiredTag]]> ∅) [])
    = (Ok tags, mkState (<["maybe" := tags]>
                           (<["optional,required" := [optionalTag; requiredTag]]> ∅)) []).
Proof.
  destruct (alias_stands_for_declaration quoteAscii basicValidator
              (mkValidator "validate" (rules basicValidator) false
                           (<["maybe" := [optionalTag; requiredTag]]> ∅))
              "maybe" "optional,required" emptyState
              (mkState (<["optional,required" := [optionalTag; requiredTag]]> ∅) []))
    as (tags & H1 & H2 & _).
  - repeat split; try reflexivity; discriminate.
  - discriminate.
  - discriminate.
  - reflexivity.
  - reflexivity.
  - reflexivity.
  - exists tags. split; assumption.
Defined.

(** ** What [Field] returns *)

Lemma evalTags_shape (tags : list Tag) (v : Value) (field : string) (s s' : State) (e : error) :
  evalTags tags v field s = (Ok (Some e), s') ->
  exists description, e = ErrFieldError (mkFieldError field description).
Proof.
  revert s. induction tags as [| t rest IH]; intros s H; simpl in H; [discriminate H |].
  unfold bind in H. destruct (callChecker t v s) as [[ok | msg] s0]; [| discriminate H].
  destruct ok; [exact (IH s0 H) |].
  destruct (ErrorFunc (Rule t)) as [errorFunc |]; [| discriminate H].
  inversion H. eexists. reflexivity.
Qed.

Lemma Field_shape (quote : string -> string) (mv : Validator)
    (val : Value) (field tags : string) (s s' : State) (e : error) :
  Field quote mv val field tags s = (Ok (Some e), s') ->
  exists description, e = ErrFieldError (mkFieldError field description).
Proof.
  intros H. destruct (string_dec tags "-") as [-> | Hne].
  - pose proof (Field_dash quote mv val field s) as Hd. congruence.
  - rewrite (Field_settle quote mv val field tags Hne) in H.
    unfold singleField, bind in H.
    destruct (mustParseTags quote mv tags s) as [[tl | msg] s0]; [| discriminate H].
    exact (evalTags_shape _ _ _ _ _ _ H).
Qed.

(** X6. What [Field] returns is nil or one [FieldError] whose field is the
    name it was given; so the [errors.As] that [validateStructFields] and
    [Fields] leave unchecked finds a [FieldError] in every result of
    [Field]. *)
Theorem Field_returns_FieldError (quote : string -> string) (mv : Validator)
    (val : Value) (field tags : string) (s s' : State) (e : error) :
  Field quote mv val field tags s = (Ok (Some e), s') ->
  exists description,
    e = ErrFieldError (mkFieldError field description) /\
    As_FieldError e = Some (mkFieldError field description).
Proof.
  intros H. destruct (Field_shape _ _ _ _ _ _ _ _ H) as [d ->].
  exists d. split; reflexivity.
Qed.

Lemma Field_returns_FieldError_witness :
  exists description,
    ErrFieldError (mkFieldError "Name" "Name is required")
    = ErrFieldError (mkFieldError "Name" description) /\
    As_FieldError (ErrFieldError (mkFieldError "Name" "Name is required"))
    = Some (mkFieldError "Name" description).
Proof.
  apply (Field_returns_FieldError quoteAscii basicValidator
           (VPtr (Some (VString ""))) "Name" "required" emptyState
           (logCalls requiredCached [("required", (VString "", ""))])).
  reflexivity.
Defined.
(** ** The state only grows *)

Lemma stateGrows_refl (s : State) : stateGrows s s.
Proof. split; [auto | exists []; rewrite app_nil_r; reflexivity]. Qed.

Lemma stateGrows_trans (s1 s2 s3 : State) :
  stateGrows s1 s2 -> stateGrows s2 s3 -> stateGrows s1 s3.
Proof.
  intros [H1 [c1 Hc1]] [H2 [c2 Hc2]]. split; [auto |].
  exists (c1 ++ c2). rewrite Hc2, Hc1, app_assoc. reflexivity.
Qed.

Lemma growsM_ret {A} (a : A) : growsM (ret a).
Proof. intros s. apply stateGrows_refl. Qed.

Lemma growsM_panic {A} (msg : string) : growsM (@panic A msg).
Proof. intros s. apply stateGrows_refl. Qed.

Lemma growsM_bind {A B} (m : M A) (k : A -> M B) :
  growsM m -> (forall a, growsM (k a)) -> growsM (bind m k).
Proof.
  intros Hm Hk s. unfold bind. specialize (Hm s).
  destruct (m s) as [[a | msg] s1]; simpl in Hm; [| exact Hm].
  eapply stateGrows_trans; [exact Hm | apply Hk].
Qed.

Lemma growsM_callChecker (t : Tag) (v : Value) : growsM (callChecker t v).
Proof.
  intros s. unfold callChecker.
  destruct (Checker (Rule t) v (Param t)); simpl; (split; [auto | eexists; reflexivity]).
Qed.

Lemma growsM_evalTags (tags : list Tag) (v : Value) (field : string) :
  growsM (evalTags tags v field).
Proof.
  induction tags as [| t rest IH]; simpl; [apply growsM_ret |].
  apply growsM_bind; [apply growsM_callChecker |].
  intros [|]; [exact IH |]. destruct (ErrorFunc (Rule t)); apply growsM_ret.
Qed.

Section StateGrows.

Variable quote : string -> string.
Variable fmtValue : Value -> string.
Variable mv : Validator.

Local Abbreviation vs := (validateStruct quote fmtValue mv).
Local Abbreviation deep := (deepValidateTaglessField quote fmtValue mv).

Lemma growsM_mustParseTags (t : string) : growsM (mustParseTags quote mv t).
Proof.
  intros s. unfold mustParseTags.
  destruct (tagCache s !! t) as [val |] eqn:Hhit; [apply stateGrows_refl |].
  destruct (parseLoop quote mv (splitUnescapedComma t) []); [| apply stateGrows_refl].
  simpl. split; [| exists []; rewrite app_nil_r; reflexivity].
  intros t' tags' H. simpl. rewrite lookup_insert_ne; [exact H |].
  intros ->. congruence.
Qed.

Lemma growsM_Field (val : Value) (field tags : string) :
  growsM (Field quote mv val field tags).
Proof.
  destruct (string_dec tags "-") as [-> | Hne].
  - intros s. rewrite Field_dash. apply stateGrows_refl.
  - rewrite (Field_settle quote mv val field tags Hne). unfold singleField.
    apply growsM_bind; [apply growsM_mustParseTags |].
    intros tl. apply growsM_evalTags.
Qed.

Lemma growsM_validateStructField (field : string) (stag : StructTag) (fv : Value)
    (result : FieldErrors) :
  (forall n, growsM (deep (derefPtr fv) n)) ->
  growsM (validateStructField quote mv deep field stag fv result).
Proof.
  intros Hdeep. unfold validateStructField.
  destruct (String.eqb (Get stag (tagName mv)) "-"); [apply growsM_ret |].
  apply growsM_bind.
  - destruct (negb (String.eqb (Get stag (tagName mv)) "")); [| apply growsM_ret].
    apply growsM_bind; [apply growsM_Field |].
    intros [e |]; apply growsM_ret.
  - intros r. apply growsM_bind; [apply Hdeep |]. intros errs. apply growsM_ret.
Qed.

Lemma growsM_fieldsLoop (fs : list (string * (StructTag * Value))) :
  Forall (fun f => forall n, growsM (deep (derefPtr (snd (snd f))) n)) fs ->
  forall result, growsM (validateStructFieldsLoop quote mv deep fs result).
Proof.
  induction 1 as [| [field [stag fv]] fs Hf Hfs IH]; intros result; simpl;
    [apply growsM_ret |].
  destruct field as [| c rest]; [apply growsM_panic |].
  destruct (isUpperByte c); simpl; [| apply IH].
  apply growsM_bind; [apply growsM_validateStructField, Hf | intros r; apply IH].
Qed.

Lemma growsM_collectionLoop (l : list Value) :
  Forall (fun x => forall n, growsM (deep x n)) l ->
  forall i field result, growsM (validateCollectionLoop deep l i field result).
Proof.
  induction 1 as [| x l Hx Hl IH]; intros i field result; simpl; [apply growsM_ret |].
  apply growsM_bind; [apply Hx | intros errs; apply IH].
Qed.

Lemma growsM_mapLoop (m : list (Value * Value)) :
  Forall (fun kv => (forall n, growsM (deep (fst kv) n)) /\
                    (forall n, growsM (deep (snd kv) n))) m ->
  forall field result, growsM (validateMapLoop fmtValue deep m field result).
Proof.
  induction 1 as [| [k x] m [Hk Hx] Hm IH]; intros field result; simpl in *;
    [apply growsM_ret |].
  apply growsM_bind; [apply Hk |]. intros errs.
  apply growsM_bind; [apply Hx |]. intros errs'. apply IH.
Qed.

Lemma growsM_traversal (v : Value) :
  (forall n, growsM (vs v n)) /\ (forall n, growsM (deep v n)).
Proof.
  induction v using Value_deref_ind.
  - destruct v as [| | | | | | [e |] | [x |] | | | | | |];
      try contradiction; split; intros nm st; apply stateGrows_refl.
  - destruct IHv as [Hvs _].
    assert (H : forall n, growsM (vs (VPtr (Some v)) n)).
    { intros n. simpl. apply growsM_bind; [apply Hvs | intros errs; apply growsM_ret]. }
    split; exact H.
  - destruct IHv as [Hvs _]. split; exact Hvs.
  - split; [intros nm st; apply stateGrows_refl |].
    intros n. apply growsM_collectionLoop.
    eapply Forall_impl; [eassumption | intros x [_ Hx]; exact Hx].
  - split; [intros nm st; apply stateGrows_refl |].
    intros n. apply growsM_collectionLoop.
    eapply Forall_impl; [eassumption | intros x [_ Hx]; exact Hx].
  - split; [intros nm st; apply stateGrows_refl |].
    intros n. apply growsM_mapLoop.
    eapply Forall_impl; [eassumption | intros kv [[_ Hk] [_ Hx]]; split; assumption].
  - assert (H0 : forall n, growsM (vs (VStruct fs) n)).
    { intros n. simpl. apply growsM_bind; [| intros errs; apply growsM_ret].
      apply growsM_fieldsLoop.
      eapply Forall_impl; [eassumption | intros f [_ Hf]; exact Hf]. }
    split; exact H0.
Qed.

(** X7. A validation never takes anything back: whatever [Struct],
    [validateStruct], [Field] or [AddAlias] do, also when they panic, every
    declaration that was cached before is cached after with the same tags,
    and the log of checker invocations is extended, never rewritten. *)
Theorem validation_keeps_state (value : Value) (field tags : string) (s : State) :
  stateGrows s (snd (Struct_ quote fmtValue mv value s)) /\
  stateGrows s (snd (validateStruct quote fmtValue mv value field s)) /\
  stateGrows s (snd (Field quote mv value field tags s)) /\
  stateGrows s (snd (AddAlias quote mv field tags s)).
Proof.
  split; [| split; [| split]].
  - unfold Struct_. apply growsM_bind; [apply growsM_traversal |].
    intros errs. apply growsM_ret.
  - apply growsM_traversal.
  - apply growsM_Field.
  - unfold AddAlias. apply growsM_bind; [apply growsM_mustParseTags |].
    intros val. apply growsM_ret.
Qed.

End StateGrows.

(** ** The order of the failures of a struct *)

Section FieldOrder.

Variable quote : string -> string.
Variable fmtValue : Value -> string.
Variable mv : Validator.

Local Abbreviation vs := (validateStruct quote fmtValue mv).
Local Abbreviation deep := (deepValidateTaglessField quote fmtValue mv).
Local Abbreviation fieldsLoop := (validateStructFieldsLoop quote mv deep).

Lemma validateStructField_acc (field : string) (stag : StructTag) (fv : Value)
    (result : FieldErrors) (s : State) :
  validateStructField quote mv deep field stag fv result s
  = withResult result (validateStructField quote mv deep field stag fv [] s).
Proof.
  unfold validateStructField.
  destruct (String.eqb (Get stag (tagName mv)) "-");
    [simpl; rewrite app_nil_r; reflexivity |].
  unfold bind.
  destruct (negb (String.eqb (Get stag (tagName mv)) "")).
  - destruct (Field quote mv (toInterface (derefPtr fv)) field (Get stag (tagName mv)) s)
      as [[[e |] | msg] s1]; simpl; try reflexivity.
    + destruct (deep (derefPtr fv) field s1) as [[errs | msg] s2]; simpl; [| reflexivity].
      rewrite <- app_assoc. reflexivity.
    + destruct (deep (derefPtr fv) field s1) as [[errs | msg] s2]; reflexivity.
  - simpl. destruct (deep (derefPtr fv) field s) as [[errs | msg] s2]; reflexivity.
Qed.

Lemma fieldsLoop_acc (fs : list (string * (StructTag * Value))) (result : FieldErrors)
    (s : State) :
  fieldsLoop fs result s = withResult result (fieldsLoop fs [] s).
Proof.
  revert result s. induction fs as [| [field [stag fv]] fs IH]; intros result s; simpl.
  - rewrite app_nil_r. reflexivity.
  - destruct field as [| c rest]; [reflexivity |].
    destruct (isUpperByte c); simpl; [| apply IH].
    unfold bind. rewrite (validateStructField_acc (String c rest) stag fv result s).
    destruct (validateStructField quote mv deep (String c rest) stag fv [] s) as [[r | msg] s1];
      simpl; [| reflexivity].
    rewrite (IH (result ++ r) s1), (IH r s1).
    destruct (fieldsLoop fs [] s1) as [[errs | msg] s2]; simpl; [| reflexivity].
    rewrite <- app_assoc. reflexivity.
Qed.

Lemma fieldsLoop_app (fs1 fs2 : list (string * (StructTag * Value))) (result : FieldErrors)
    (s : State) :
  fieldsLoop (fs1 ++ fs2) result s
  = (let* r := fieldsLoop fs1 result in fieldsLoop fs2 r) s.
Proof.
  revert result s. induction fs1 as [| [field [stag fv]] fs1 IH]; intros result s; simpl.
  - reflexivity.
  - destruct field as [| c rest]; [reflexivity |].
    destruct (isUpperByte c); simpl; [| apply IH].
    unfold bind at 1 2 3.
    destruct (validateStructField quote mv deep (String c rest) stag fv result s)
      as [[r | msg] s1]; [apply IH | reflexivity].
Qed.

Lemma finishStruct_app (n : string) (a b : FieldErrors) :
  finishStruct mv n (a ++ b) = finishStruct mv n a ++ finishStruct mv n b.
Proof.
  unfold finishStruct.
  destruct (negb (fullErrorPath mv) || String.eqb n "");
    destruct a, b; simpl; rewrite ?app_nil_r, ?map_app; reflexivity.
Qed.

Lemma fieldsLoop_of_struct (fs : list (string * (StructTag * Value))) (n : string)
    (s s' : State) (errs : FieldErrors) :
  vs (VStruct fs) n s = (Ok errs, s') ->
  exists raw, fieldsLoop fs [] s = (Ok raw, s') /\ errs = finishStruct mv n raw.
Proof.
  rewrite validateStruct_struct. unfold bind. intros H.
  destruct (fieldsLoop fs [] s) as [[raw | msg] s1]; [| discriminate H].
  inversion H; subst. exists raw. split; reflexivity.
Qed.

(** X8. The failures of a struct come in the order of its fields: the
    failures of the first fields, then those of the fields after them,
    validated in the state the first fields leave; and a panic among the
    first fields is the panic of the whole. *)
Theorem struct_errors_in_field_order (fs1 fs2 : list (string * (StructTag * Value)))
    (n : string) (s s1 : State) :
  (forall e1 e2 s2,
      vs (VStruct fs1) n s = (Ok e1, s1) ->
      vs (VStruct fs2) n s1 = (Ok e2, s2) ->
      vs (VStruct (fs1 ++ fs2)) n s = (Ok (e1 ++ e2), s2)) /\
  (forall msg,
      vs (VStruct fs1) n s = (Panic msg, s1) ->
      vs (VStruct (fs1 ++ fs2)) n s = (Panic msg, s1)).
Proof.
  split.
  - intros e1 e2 s2 H1 H2.
    destruct (fieldsLoop_of_struct _ _ _ _ _ H1) as (a & Ha & ->).
    destruct (fieldsLoop_of_struct _ _ _ _ _ H2) as (b & Hb & ->).
    rewrite validateStruct_struct. unfold bind at 1.
    rewrite fieldsLoop_app. unfold bind at 1. rewrite Ha, fieldsLoop_acc, Hb. simpl.
    unfold ret. rewrite finishStruct_app. reflexivity.
  - intros msg H. rewrite validateStruct_struct in *. unfold bind in *.
    rewrite fieldsLoop_app. unfold bind.
    destruct (fieldsLoop fs1 [] s) as [[a | m] s0]; [discriminate H |].
    inversion H; subst. reflexivity.
Qed.

Lemma fieldsLoop_unexported (pre post : list (string * (StructTag * Value)))
    (c : ascii) (rest : string) (stag : StructTag) (fv : Value)
    (result : FieldErrors) (s : State) :
  isUpperByte c = false ->
  fieldsLoop (pre ++ (String c rest, (stag, fv)) :: post) result s
  = fieldsLoop (pre ++ post) result s.
Proof.
  intros Hlow. rewrite !fieldsLoop_app. unfold bind.
  destruct (fieldsLoop pre result s) as [[r | msg] s1]; [| reflexivity].
  simpl. rewrite Hlow. reflexivity.
Qed.


(** X10. A pointer on the way to a struct.  A struct field is validated as
    what its pointers lead to.  Elsewhere (the value given to [Struct], an
    element of a collection, a value in an interface) each pointer layer
    runs the end of [validateStruct] once more: without the full error path
    that changes nothing, with it and under a named parent the parent's
    name is put in front once per layer. *)
Theorem pointer_layers (v : Value) (n : string) (s : State) :
  (forall field stag result,
      validateStructField quote mv deep field stag (VPtr (Some v)) result s
      = validateStructField quote mv deep field stag v result s) /\
  (fullErrorPath mv = false -> vs (VPtr (Some v)) n s = vs v n s) /\
  (fullErrorPath mv = true -> n <> "" ->
   forall errs s',
     vs v n s = (Ok errs, s') ->
     vs (VPtr (Some v)) n s = (Ok (map (prefixField n) errs), s') /\
     deep (VPtr (Some v)) n s = (Ok (map (prefixField n) errs), s')).
Proof.
  split; [reflexivity |]. split.
  - intros Hdef. simpl. unfold bind.
    destruct (vs v n s) as [[errs | msg] s1]; [| reflexivity].
    unfold ret, finishStruct. rewrite Hdef. destruct errs; reflexivity.
  - intros Hfull Hn errs s' H. apply String.eqb_neq in Hn.
    assert (Hvs : vs (VPtr (Some v)) n s = (Ok (map (prefixField n) errs), s')).
    { simpl. unfold bind. rewrite H. unfold ret, finishStruct. rewrite Hfull, Hn.
      destruct errs; reflexivity. }
    split; exact Hvs.
Qed.

End FieldOrder.

Lemma struct_errors_in_field_order_witness :
  validateStruct quoteAscii fmtAny basicValidator
    (VStruct ([("A", (validateTag "required", VInt KInt 0))]
              ++ [("B", (validateTag "optional,required", VString ""));
                  ("C", (validateTag "required", VBool false))])) "" emptyState
  = (Ok ([mkFieldError "A" "A is required"] ++ [mkFieldError "C" "C is required"]),
     mkState (<["optional,required" := [optionalTag; requiredTag]]>
                (<["required" := [requiredTag]]> ∅))
             [("required", (VInt KInt 0, "")); ("optional", (VString "", ""));
              ("required", (VBool false, ""))]).
Proof.
  refine (proj1 (struct_errors_in_field_order quoteAscii fmtAny basicValidator _ _ ""
                   emptyState _) _ _ _ _ _); reflexivity.
Defined.


Lemma pointer_layers_witness :
  deepValidateTaglessField quoteAscii fmtAny (WithFullErrorPath basicValidator)
    (VPtr (Some sub2Struct)) "Sub2" emptyState
  = (Ok (map (prefixField "Sub2") [mkFieldError "Sub2.A" "A is required"]),
     mkState (<["required" := [requiredTag]]> ∅) [("required", (VInt KInt 0, ""))]).
Proof.
  refine (proj2 (proj2 (proj2 (pointer_layers quoteAscii fmtAny
                   (WithFullErrorPath basicValidator) sub2Struct "Sub2" emptyState))
                   _ _ _ _ _)); [reflexivity | discriminate | reflexivity].
Defined.

(** ** Composing results *)

Lemma fold_append (fes : FieldErrors) (r : ValidationResult) :
  Errors (fold_left (fun r fieldErr => mkResult (Errors r ++ [fieldErr])) fes r)
  = Errors r ++ fes.
Proof.
  revert r. induction fes as [| fe fes IH]; intros r; simpl.
  - rewrite app_nil_r. reflexivity.
  - rewrite IH. simpl. rewrite <- app_assoc. reflexivity.
Qed.

Lemma AddError_taken (r : ValidationResult) (err : option error) :
  Errors (AddError r err) = Errors r ++ taken err.
Proof.
  destruct err as [e |]; simpl; [| rewrite app_nil_r; reflexivity].
  destruct (As_FieldErrors e) as [fes |]; [apply fold_append |].
  destruct (As_FieldError e); simpl; rewrite ?app_nil_r; reflexivity.
Qed.

Lemma AddErrors_taken (errs : list (option error)) (r : ValidationResult) :
  Errors (AddErrors r errs) = Errors r ++ flat_map taken errs.
Proof.
  unfold AddErrors. revert r.
  induction errs as [| err errs IH]; intros r; cbn [fold_left flat_map].
  - rewrite app_nil_r. reflexivity.
  - rewrite IH, AddError_taken, <- app_assoc. reflexivity.
Qed.

Lemma NewResult_taken (errs : list (option error)) :
  Errors (NewResult errs) = flat_map taken errs.
Proof.
  unfold NewResult.
  assert (H : forall r,
             Errors (fold_left (fun result err =>
                                  match err with
                                  | Some _ => AddError result err
                                  | None => result
                                  end) errs r)
             = Errors r ++ flat_map taken errs).
  { induction errs as [| [e |] errs IH]; intros r; cbn [fold_left flat_map].
    - rewrite app_nil_r. reflexivity.
    - rewrite IH, AddError_taken, <- app_assoc. reflexivity.
    - rewrite IH. reflexivity. }
  apply (H (mkResult [])).
Qed.

(** X11. Adding errors to a result appends what a fresh result would
    collect from them, a [FieldErrors] flattened at its place; adding two
    lists one after the other is adding them joined; and a result that is
    valid after the additions was valid before. *)
Theorem AddErrors_appends (r : ValidationResult) (errs errs' : list (option error)) :
  Errors (AddErrors r errs) = Errors r ++ Errors (NewResult errs) /\
  AddErrors (AddErrors r errs) errs' = AddErrors r (errs ++ errs') /\
  (IsValid (AddErrors r errs) = true -> IsValid r = true).
Proof.
  split; [| split].
  - rewrite AddErrors_taken, NewResult_taken. reflexivity.
  - unfold AddErrors. rewrite fold_left_app. reflexivity.
  - unfold IsValid. rewrite AddErrors_taken, length_app.
    rewrite !Nat.eqb_eq. lia.
Qed.

Lemma AddErrors_appends_witness :
  IsValid (NewResult [None; Some (ErrOther "random error")]) = true.
Proof.
  apply (AddErrors_appends (NewResult [None; Some (ErrOther "random error")])
           [Some (ErrFieldErrors [])] []).
  reflexivity.
Defined.

Lemma carries_taken (e : error) (fe : FieldError) : carries e fe -> taken (Some e) = [fe].
Proof.
  intros H. simpl.
  assert (Hn : As_FieldErrors e = None) by (induction H; simpl; auto).
  rewrite Hn, (carries_As e fe H). reflexivity.
Qed.

Lemma flat_map_taken_carried (errs : list (option error)) (fes : FieldErrors) :
  Forall2 carries (nonNil errs) fes -> flat_map taken errs = fes.
Proof.
  revert fes. induction errs as [| [e |] errs IH]; intros fes H; simpl in *.
  - inversion H. reflexivity.
  - inversion H as [| ? fe ? fes' Hc Hrest]; subst.
    change (taken (Some e) ++ flat_map taken errs = fe :: fes').
    rewrite (carries_taken e fe Hc), (IH fes' Hrest). reflexivity.
  - apply IH, H.
Qed.

(** X12. On results of [Field] (arguments that are nil or carry a
    [FieldError]) the two ways of composing agree: [NewResult(errs...).Err()]
    is what [Fields(errs...)] returns. *)
Theorem NewResult_Err_is_Fields (errs : list (option error)) (fes : FieldErrors) :
  Forall2 carries (nonNil errs) fes ->
  Err (NewResult errs) = Fields errs.
Proof.
  intros H. unfold Err, IsValid, Fields.
  rewrite NewResult_taken, (flat_map_taken_carried errs fes H).
  rewrite (FieldsLoop_carried errs fes [] H). reflexivity.
Qed.

Lemma NewResult_Err_is_Fields_witness :
  Err (NewResult [Some (ErrFieldError (mkFieldError "Name" "short")); None])
  = Fields [Some (ErrFieldError (mkFieldError "Name" "short")); None].
Proof.
  apply (NewResult_Err_is_Fields _ [mkFieldError "Name" "short"]).
  repeat constructor.
Defined.

(** ** The text of a [FieldErrors] *)

Lemma joinFields_from (rest : FieldErrors) (acc : string) :
  acc <> "" ->
  fold_left (fun err fe =>
               (if negb (String.eqb err "") then err +:+ ", " else err) +:+ Field_ fe)
            rest acc
  = String.concat ", " (acc :: map Field_ rest).
Proof.
  revert acc. induction rest as [| fe rest IH]; intros acc Hacc; [reflexivity |].
  cbn [fold_left]. apply String.eqb_neq in Hacc. rewrite Hacc. cbn [negb].
  rewrite IH.
  - cbn [map]. rewrite (concat_cons ", " acc) by discriminate.
    destruct rest as [| fe' rest]; cbn [map String.concat].
    + rewrite append_assoc. reflexivity.
    + rewrite !append_assoc. reflexivity.
  - destruct acc; [discriminate Hacc | discriminate].
Qed.

(** X13. The text of a [FieldErrors] whose first field name is not empty is
    the heading, [field is invalid: ] for one failure and
    [fields are invalid: ] for more, followed by the field names in order,
    repeats included, joined by a comma and a space. *)
Theorem FieldErrors_Error_text (fe : FieldError) (rest : FieldErrors) :
  Field_ fe <> "" ->
  FieldErrors_Error (fe :: rest)
  = (match rest with [] => "field is invalid: " | _ => "fields are invalid: " end)
      +:+ String.concat ", " (map Field_ (fe :: rest)).
Proof.
  intros Hfe. unfold FieldErrors_Error, joinFields. cbn [fold_left String.eqb negb].
  change ("" +:+ Field_ fe) with (Field_ fe).
  rewrite (joinFields_from rest (Field_ fe) Hfe).
  destruct rest; reflexivity.
Qed.

Lemma FieldErrors_Error_text_witness :
  FieldErrors_Error [mkFieldError "A" "a"; mkFieldError "B" "b"; mkFieldError "A" "c"]
  = "fields are invalid: A, B, A".
Proof.
  apply (FieldErrors_Error_text (mkFieldError "A" "a") [mkFieldError "B" "b"; mkFieldError "A" "c"]).
  discriminate.
Defined.
(** ** From validation failures to a grpc status *)

Lemma FieldErrors_Error_single (fe : FieldError) :
  FieldErrors_Error [fe] = FieldError_Error fe.
Proof. reflexivity. Qed.

Section GrpcProperties.

Variable marshalError : list FieldViolation -> option string.
Variable quote : string -> string.
Variable fmtValue : Value -> string.
Variable mv : Validator.

(** X14. [ValidationErrors] returns nil exactly on nil and on an error
    that holds an empty [FieldErrors]; on an error that holds a
    [FieldError], [ValidationError] returns the status [ValidationErrors]
    returns on the [FieldErrors] of that one failure. *)
Theorem ValidationErrors_nil_and_single (err : option error) :
  (ValidationErrors marshalError err = None <->
   err = None \/ exists e, err = Some e /\ As_FieldErrors e = Some []) /\
  (forall e fe,
      As_FieldError e = Some fe ->
      ValidationError marshalError (Some e)
      = ValidationErrors marshalError (Some (ErrFieldErrors [fe]))).
Proof.
  split.
  - destruct err as [e |]; simpl.
    + destruct (As_FieldErrors e) as [errs |] eqn:Ha.
      * destruct errs as [| fe fes]; simpl.
        -- split; [intros _; right; exists e; auto | reflexivity].
        -- split; [discriminate |].
           intros [H | (e' & He & H')]; [discriminate H |].
           inversion He; subst. congruence.
      * split; [discriminate |].
        intros [H | (e' & He & H')]; [discriminate H |].
        inversion He; subst. congruence.
    + split; [left; reflexivity | reflexivity].
  - intros e fe H. simpl. rewrite H. reflexivity.
Qed.

(** X15. [ValidationErrors] takes what [Struct] returns and
    [ValidationError] what [Field] returns: nil stays nil, and a failure
    becomes the invalid-argument status with one violation per
    [FieldError], in order (or the internal status of a failed marshal).
    Crossed over, each reports the other's failure as an internal
    [unexpected error type]. *)
Theorem validation_to_status (value : Value) (field tags : string) (s s' : State) :
  (forall r,
      Struct_ quote fmtValue mv value s = (Ok r, s') ->
      match r with
      | None => ValidationErrors marshalError r = None
      | Some e =>
          exists fe fes,
            e = ErrFieldErrors (fe :: fes) /\
            ValidationErrors marshalError r
            = Some (invalidArgument marshalError (FieldErrors_Error (fe :: fes))
                      (map violationOf (fe :: fes))) /\
            ValidationError marshalError r
            = Some (mkStatus Internal
                      ("unexpected error type: " +:+ FieldErrors_Error (fe :: fes)) [])
      end) /\
  (forall r,
      Field quote mv value field tags s = (Ok r, s') ->
      match r with
      | None => ValidationError marshalError r = None
      | Some e =>
          exists fe,
            e = ErrFieldError fe /\ Field_ fe = field /\
            ValidationError marshalError r
            = Some (invalidArgument marshalError (FieldError_Error fe) [violationOf fe]) /\
            ValidationErrors marshalError r
            = Some (mkStatus Internal
                      ("unexpected error type: " +:+ FieldError_Error fe) [])
      end).
Proof.
  split.
  - intros r H. unfold Struct_, bind in H.
    destruct (validateStruct quote fmtValue mv value "" s) as [[errs | msg] s0];
      [| discriminate H].
    unfold ret in H. destruct errs as [| fe fes]; simpl in H; inversion H; subst.
    + reflexivity.
    + exists fe, fes. repeat split; reflexivity.
  - intros [e |] H; [| reflexivity].
    destruct (Field_shape _ _ _ _ _ _ _ _ H) as [d ->].
    exists (mkFieldError field d). repeat split; reflexivity.
Qed.

End GrpcProperties.

Lemma ValidationErrors_nil_and_single_witness :
  ValidationError (fun _ => None)
    (Some (ErrWrap "ctx" (ErrFieldError (mkFieldError "A" "a"))))
  = ValidationErrors (fun _ => None) (Some (ErrFieldErrors [mkFieldError "A" "a"])).
Proof.
  apply (ValidationErrors_nil_and_single (fun _ => None) None). reflexivity.
Defined.

Lemma validation_to_status_witness :
  ValidationErrors (fun _ => None)
    (Some (ErrFieldErrors [mkFieldError "Pointer" "Pointer is required"]))
  = Some (mkStatus InvalidArgument "field is invalid: Pointer"
            [[mkViolation "Pointer" "Pointer is required"]]).
Proof.
  destruct (proj1 (validation_to_status (fun _ => None) quoteAscii fmtAny basicValidator
              (VStruct [("Pointer", (validateTag "required", VPtr None))]) "" ""
              emptyState _) _ eq_refl) as (fe & fes & He & Hv & _).
  inversion He; subst. exact Hv.
Defined.

(** ** Dates written out *)

Lemma time_Parse_midnight (p : string) (d : Z) :
  time_Parse p = Some d -> midnightOf d = d.
Proof.
  unfold time_Parse. intros H.
  repeat match type of H with
         | match ?x with _ => _ end = _ => destruct x; try discriminate H
         end.
  inversion H. unfold midnightOf, nanosPerDay. rewrite Z.div_mul by lia. reflexivity.
Qed.

Lemma parseDate_written (now : Z) (p : string) (d : Z) :
  time_Parse p = Some d -> parseDate now p = Ok d.
Proof.
  intros H. unfold parseDate.
  destruct (String.eqb_spec p "now") as [-> | Hne]; [discriminate H |].
  rewrite H, (time_Parse_midnight p d H). reflexivity.
Qed.

(** X16. With the date written out, [mindate] and [maxdate] compare days,
    both bounds included, whatever the clock reads: a date passes
    [mindate=D] exactly when it is [D] or later and [maxdate=D] exactly
    when it is [D] or earlier, so it passes both exactly when it is [D]. *)
Theorem written_date_bounds (now : Z) (str p : string) (t d : Z) :
  time_Parse str = Some t -> time_Parse p = Some d ->
  MinDate now (VString str) p = Ok (d <=? t) /\
  MaxDate now (VString str) p = Ok (t <=? d) /\
  (MinDate now (VString str) p = Ok true /\ MaxDate now (VString str) p = Ok true
   <-> t = d).
Proof.
  intros Hs Hp.
  assert (Hne : String.eqb str "" = false).
  { destruct (String.eqb_spec str "") as [-> | H]; [discriminate Hs | reflexivity]. }
  assert (Hmin : MinDate now (VString str) p = Ok (d <=? t)).
  { unfold MinDate. rewrite Hne, Hs, (parseDate_written now p d Hp). f_equal.
    destruct (Z.ltb_spec d t), (Z.eqb_spec t d), (Z.leb_spec d t); simpl; try reflexivity; lia. }
  assert (Hmax : MaxDate now (VString str) p = Ok (t <=? d)).
  { unfold MaxDate. rewrite Hne, Hs, (parseDate_written now p d Hp). f_equal.
    destruct (Z.ltb_spec t d), (Z.eqb_spec t d), (Z.leb_spec t d); simpl; try reflexivity; lia. }
  split; [exact Hmin |]. split; [exact Hmax |].
  rewrite Hmin, Hmax. split.
  - intros [H1 H2]. inversion H1. inversion H2.
    apply Z.leb_le in H0, H3. lia.
  - intros ->. rewrite Z.leb_refl. split; reflexivity.
Qed.

Lemma written_date_bounds_witness :
  MinDate 0 (VString "1899-12-31") "1900-01-01" = Ok false /\
  MaxDate 0 (VString "2010-12-31") "2010-12-31" = Ok true.
Proof.
  split.
  - exact (proj1 (written_date_bounds 0 "1899-12-31" "1900-01-01" _ _ eq_refl eq_refl)).
  - exact (proj1 (proj2 (written_date_bounds 0 "2010-12-31" "2010-12-31" _ _ eq_refl eq_refl))).
Defined.

(** ** Values that are no struct *)

Section NotStruct.

Variable quote : string -> string.
Variable fmtValue : Value -> string.
Variable mv : Validator.


End NotStruct.


(** ** Registering a rule *)

Lemma hasChar_app (c : ascii) (a b : string) :
  hasChar c (a +:+ b) = hasChar c a || hasChar c b.
Proof.
  induction a as [| x a IH]; [reflexivity |].
  change (hasChar c (String x (a +:+ b)) = hasChar c (String x a) || hasChar c b).
  simpl. rewrite IH, orb_assoc. reflexivity.
Qed.

Lemma splitEq_at (n p : string) :
  hasChar equals n = false -> splitEq (n +:+ "=" +:+ p) = (n, Some p).
Proof.
  induction n as [| x n IH]; intros Hn; [reflexivity |].
  simpl in Hn. apply orb_false_iff in Hn. destruct Hn as [Hx Hn].
  change (splitEq (String x (n +:+ "=" +:+ p)) = (String x n, Some p)).
  simpl. rewrite Hx, (IH Hn). reflexivity.
Qed.

(** X18. A rule that was registered is what its name resolves to.  After
    [AddRule], a declaration not yet cached that consists of the rule's
    (plain) name parses to the one tag of that rule with an empty
    parameter, and the name followed by an equals sign and a parameter
    without comma to the tag with the trimmed parameter; the rule
    registered last under a name is the one found, whatever was
    registered before, and an alias of the same name is not looked at. *)
Theorem AddRule_resolves (quote : string -> string) (mv : Validator)
    (older rule : ValidationRule) (param : string) (s : State) :
  plainName (RuleTag rule) -> hasChar comma param = false ->
  let mv' := AddRule (AddRule mv older) rule in
  (tagCache s !! RuleTag rule = None ->
   mustParseTags quote mv' (RuleTag rule) s
   = (Ok [mkTag (RuleTag rule) rule ""],
      mkState (<[RuleTag rule := [mkTag (RuleTag rule) rule ""]]> (tagCache s)) (calls s))) /\
  (tagCache s !! (RuleTag rule +:+ "=" +:+ param) = None ->
   mustParseTags quote mv' (RuleTag rule +:+ "=" +:+ param) s
   = (Ok [mkTag (RuleTag rule) rule (Trim param)],
      mkState (<[RuleTag rule +:+ "=" +:+ param := [mkTag (RuleTag rule) rule (Trim param)]]>
                 (tagCache s)) (calls s))).
Proof.
  intros Hplain Hparam mv'.
  assert (Hrule : rules mv' !! RuleTag rule = Some rule).
  { unfold mv', AddRule. simpl. apply lookup_insert_eq. }
  assert (Hne : String.eqb (RuleTag rule) "" = false).
  { apply String.eqb_neq. apply Hplain. }
  destruct Hplain as (Hn & Hc & He & Hf & Hl).
  split; intros Hmiss; apply mustParseTags_miss; try exact Hmiss.
  - rewrite (splitUnescapedComma_no_comma _ Hc). cbn [resolvePieces]. unfold resolvePiece.
    destruct (specName_plain (RuleTag rule)) as [-> ->]; [repeat split; assumption |].
    rewrite Hne, Hrule. reflexivity.
  - assert (Hc' : hasChar comma (RuleTag rule +:+ "=" +:+ param) = false).
    { rewrite !hasChar_app, Hc, Hparam. reflexivity. }
    rewrite (splitUnescapedComma_no_comma _ Hc'). cbn [resolvePieces]. unfold resolvePiece.
    unfold specName, specParam.
    rewrite (unescapeComma_no_comma _ _ (le_n _) Hc'), (splitEq_at _ param He).
    cbn [fst snd].
    assert (Ht : Trim (RuleTag rule) = RuleTag rule).
    { unfold Trim. rewrite (trimLeft_id _ Hf). apply trimRight_id, Hl. }
    rewrite Ht, Hne, Hrule. reflexivity.
Qed.

Lemma AddRule_resolves_witness :
  mustParseTags quoteAscii (AddRule (AddRule NewValidator optionalRule) requiredRule)
    "required= yes " emptyState
  = (Ok [mkTag "required" requiredRule "yes"],
     mkState (<["required= yes " := [mkTag "required" requiredRule "yes"]]> ∅) []).
Proof.
  refine (proj2 (AddRule_resolves quoteAscii NewValidator
                   optionalRule requiredRule " yes " emptyState _ _) _).
  - repeat split; try reflexivity; discriminate.
  - reflexivity.
  - reflexivity.
Defined.
